(** * bit_pattern: three matchers counting the bit pattern 110 in a byte stream

    Shallow embedding of [src/main.cpp].  The C++ classes [StateMachine],
    [SlidingBitmask] and [Lut] all derive from the abstract class [Method];
    each instance is a record, a call of [pattern_match] is a function from
    the instance before the call to the instance after it and the returned
    count.

    Machine integers are values of [Z]:
    - [unsigned char] values lie in [0, 256), [unsigned short] values in
      [0, 65536); a conversion to one of these types is the remainder
      modulo 2^8 resp. 2^16 ([to_uchar], [to_ushort]);
    - [int] is the 32-bit signed type.  Signed overflow has no defined
      result in C++, so an [int] addition that leaves the range yields
      [None] ([int_add]), and so does an array access outside the array.
      A call that yields [None] is a call without defined behaviour. *)

From Stdlib Require Import ZArith Lia Bool List.
From stdpp Require Import base option list strings.
Import ListNotations.

Local Open Scope Z_scope.

(** ** Machine integers *)

Definition INT_MIN : Z := -2147483648.
Definition INT_MAX : Z := 2147483647.

Definition to_uchar (x : Z) : Z := x mod 256.
Definition to_ushort (x : Z) : Z := x mod 65536.

Definition is_uchar (x : Z) : Prop := 0 ≤ x < 256.

Definition in_int (x : Z) : bool := (INT_MIN <=? x) && (x <=? INT_MAX).

(** [a + b] on [int]. *)
Definition int_add (a b : Z) : option Z :=
  if in_int (a + b) then Some (a + b) else None.

(** [arr[i]] and [arr[i] = v] on a C array held as a list. *)
Definition array_get (arr : list Z) (i : Z) : option Z :=
  if 0 <=? i then arr !! Z.to_nat i else None.

Definition array_set (arr : list Z) (i v : Z) : option (list Z) :=
  if (0 <=? i) && (i <? Z.of_nat (length arr))
  then Some (<[Z.to_nat i := v]> arr) else None.

(** ** class Method *)

(** [const unsigned char pattern{0b110}]. *)
Definition pattern : Z := 6.

(** The interface: the public field [total_count] and the virtual
    [pattern_match].  ([total_time] and [getName] serve the timing driver
    only.) *)
Class Method (M : Type) := {
  total_count : M → Z;
  pattern_match : M → Z → option (M * Z)
}.

(** ** class StateMachine *)

Record StateMachine := {
  sm_total_count : Z;
  pos : Z
}.

(** [int total_count{0}; int pos{0};] *)
Definition StateMachine_new : StateMachine :=
  {| sm_total_count := 0; pos := 0 |}.

(** The case labels of [switch (pos)]. *)
Inductive sm_case := Case_0_1 | Case_2 | Case_default.

Definition sm_switch (pos : Z) : sm_case :=
  if (pos =? 0) || (pos =? 1) then Case_0_1
  else if pos =? 2 then Case_2
  else Case_default.

(** The body of the [for] loop once [bit] is computed: the new [pos] and
    [counter].  [pos++] is reached with [pos] 0 or 1 only and [counter++]
    at most 8 times from 0 ([sm_loop_counter]), so neither leaves the
    range of [int]. *)
Definition sm_transition (pos counter bit : Z) : Z * Z :=
  match sm_switch pos with
  | Case_0_1 =>
      if negb (bit =? 0) then (pos + 1, counter) else (0, counter)
  | Case_2 =>
      if negb (bit =? 0) then (pos, counter) else (0, counter + 1)
  | Case_default => (pos, counter)
  end.

(** [const unsigned char bit = sample & (1 << i);] *)
Definition sm_bit (sample i : Z) : Z :=
  to_uchar (Z.land sample (Z.shiftl 1 i)).

(** [for (int i = n - 1; i >= 0; i--) { ... }]; the source runs it with
    [n = 8]. *)
Fixpoint sm_loop (n : nat) (sample pos counter : Z) : Z * Z :=
  match n with
  | O => (pos, counter)
  | S i =>
      let '(pos', counter') :=
        sm_transition pos counter (sm_bit sample (Z.of_nat i)) in
      sm_loop i sample pos' counter'
  end.

Definition StateMachine_pattern_match (m : StateMachine) (sample : Z)
  : option (StateMachine * Z) :=
  let '(pos', counter) := sm_loop 8 sample (pos m) 0 in
  total ← int_add (sm_total_count m) counter;
  Some ({| sm_total_count := total; pos := pos' |}, counter).

#[export] Instance StateMachine_Method : Method StateMachine := {
  total_count := sm_total_count;
  pattern_match := StateMachine_pattern_match
}.

(** ** class SlidingBitmask *)

Record SlidingBitmask := {
  sb_total_count : Z;
  sb_prev : Z
}.

(** [int total_count{0}; unsigned char prev{0};] *)
Definition SlidingBitmask_new : SlidingBitmask :=
  {| sb_total_count := 0; sb_prev := 0 |}.

(** [(static_cast<unsigned short>(prev) << 8) | sample], stored in an
    [unsigned short]. *)
Definition sb_combine (prev sample : Z) : Z :=
  to_ushort (Z.lor (Z.shiftl (to_ushort prev) 8) sample).

(** [((combined_samples >> i) & 0x07) == pattern] *)
Definition sb_window_matches (combined_samples i : Z) : bool :=
  Z.land (Z.shiftr combined_samples i) 7 =? pattern.

(** [for (int i = n - 1; i >= 0; i--) if (...) counter++;] with [n = 8] in
    the source. *)
Fixpoint sb_loop (n : nat) (combined_samples counter : Z) : Z :=
  match n with
  | O => counter
  | S i =>
      sb_loop i combined_samples
        (if sb_window_matches combined_samples (Z.of_nat i)
         then counter + 1 else counter)
  end.

Definition SlidingBitmask_pattern_match (m : SlidingBitmask) (sample : Z)
  : option (SlidingBitmask * Z) :=
  let combined_samples := sb_combine (sb_prev m) sample in
  let counter := sb_loop 8 combined_samples 0 in
  total ← int_add (sb_total_count m) counter;
  Some ({| sb_total_count := total; sb_prev := sample |}, counter).

#[export] Instance SlidingBitmask_Method : Method SlidingBitmask := {
  total_count := sb_total_count;
  pattern_match := SlidingBitmask_pattern_match
}.

(** ** class Lut *)

Record Lut := {
  lut_total_count : Z;
  lut_prev : Z;
  count_lut : list Z
}.

(** The [while] loop of the constructor.  [fuel] bounds the number of times
    the loop condition is evaluated; [None] when it runs out, or when an
    operation of the body is undefined. *)
Fixpoint Lut_build (fuel : nat) (combined_samples : Z) (count_lut : list Z)
  : option (list Z) :=
  match fuel with
  | O => None
  | S fuel' =>
      if combined_samples <? Z.of_nat (length count_lut) then
        let method2 := SlidingBitmask_new in
        '(method2, counter) ←
          pattern_match method2 (to_uchar (Z.shiftr combined_samples 8));
        '(method2, counter2) ←
          pattern_match method2 (to_uchar (Z.land combined_samples 255));
        counter ← int_add counter counter2;
        count_lut' ← array_set count_lut combined_samples counter;
        Lut_build fuel' (to_ushort (combined_samples + 1)) count_lut'
      else Some count_lut
  end.

(** [int count_lut[1024]{};] followed by the constructor body.  The loop
    condition is evaluated 1025 times. *)
Definition Lut_new : option Lut :=
  table ← Lut_build 1025 0 (replicate 1024 0);
  Some {| lut_total_count := 0; lut_prev := 0; count_lut := table |}.

Definition Lut_pattern_match (m : Lut) (sample : Z) : option (Lut * Z) :=
  let combined_samples :=
    to_ushort
      (Z.land (Z.lor (Z.shiftl (to_ushort (lut_prev m)) 8) sample) 1023) in
  counter ← array_get (count_lut m) combined_samples;
  total ← int_add (lut_total_count m) counter;
  Some ({| lut_total_count := total; lut_prev := sample;
           count_lut := count_lut m |}, counter).

#[export] Instance Lut_Method : Method Lut := {
  total_count := lut_total_count;
  pattern_match := Lut_pattern_match
}.

(** ** The driver loop *)

(** [for (i = 0; i < n; i++) method->pattern_match(samples[i]);] the
    instance after the loop, and the counts the calls returned, in order. *)
Fixpoint feed {M} `{Method M} (m : M) (samples : list Z)
  : option (M * list Z) :=
  match samples with
  | [] => Some (m, [])
  | sample :: rest =>
      '(m1, counter) ← pattern_match m sample;
      '(m2, counters) ← feed m1 rest;
      Some (m2, counter :: counters)
  end.

(** The running total after the loop. *)
Definition total_after {M} `{Method M} (m : M) (samples : list Z)
  : option Z :=
  (λ r, total_count r.1) <$> feed m samples.

(** The values of [pos] on which [switch (pos)] is evaluated during the
    loop of one call, in order. *)
Fixpoint sm_switch_trace (n : nat) (sample pos : Z) : list Z :=
  match n with
  | O => []
  | S i =>
      pos :: sm_switch_trace i sample
               (sm_transition pos 0 (sm_bit sample (Z.of_nat i))).1
  end.

(** ** The automaton of the specification *)

(** One transition: from state 0 or 1 a 1-bit advances the state by one and
    a 0-bit resets to state 0; from state 2 a 1-bit stays in state 2 and a
    0-bit records a match and resets to state 0.  No transition is given
    for any other state. *)
Definition spec_transition (state : Z) (bit : bool) (matches : Z)
  : option (Z * Z) :=
  if decide (state = 0 ∨ state = 1) then
    Some (if bit then state + 1 else 0, matches)
  else if decide (state = 2) then
    Some (if bit then (2, matches) else (0, matches + 1))
  else None.

Fixpoint spec_transitions (bits : list bool) (state matches : Z)
  : option (Z * Z) :=
  match bits with
  | [] => Some (state, matches)
  | bit :: rest =>
      '(state', matches') ← spec_transition state bit matches;
      spec_transitions rest state' matches'
  end.

(** The bits of a byte, bit 7 first. *)
Definition byte_bits (sample : Z) : list bool :=
  map (Z.testbit sample) [7; 6; 5; 4; 3; 2; 1; 0].

(** Processing one byte: 8 transitions, returning the matches recorded. *)
Definition spec_process_byte (state sample : Z) : option (Z * Z) :=
  spec_transitions (byte_bits sample) state 0.

(** Processing a sequence of bytes, the state carried from byte to byte. *)
Fixpoint spec_process (state : Z) (samples : list Z) : option (Z * list Z) :=
  match samples with
  | [] => Some (state, [])
  | sample :: rest =>
      '(state1, n) ← spec_process_byte state sample;
      '(state2, ns) ← spec_process state1 rest;
      Some (state2, n :: ns)
  end.

(** ** Windows of a combined value *)

(** The window whose lowest bit is bit [i] reads 1,1,0. *)
Definition spec_window_is_110 (combined i : Z) : bool :=
  Z.testbit combined (i + 2) && Z.testbit combined (i + 1)
  && negb (Z.testbit combined i).

(** The number of windows reading 1,1,0 among the 8 windows of a 10-bit
    value. *)
Definition spec_window_count (combined : Z) : Z :=
  Z.of_nat
    (length (List.filter (spec_window_is_110 combined)
               [7; 6; 5; 4; 3; 2; 1; 0])).

(** ** Auxiliary definitions for the proofs *)

(** The automaton position that corresponds to a carried previous byte: the
    number of its trailing 1 bits, at most 2. *)
Definition carry (prev : Z) : Z :=
  if Z.land prev 3 =? 3 then 2 else if Z.land prev 1 =? 1 then 1 else 0.

(** The table entry the constructor computes for index [combined]. *)
Definition lut_entry (combined : Z) : Z :=
  sb_loop 8 (sb_combine 0 (to_uchar (Z.shiftr combined 8))) 0
  + sb_loop 8 (sb_combine (to_uchar (Z.shiftr combined 8))
                 (to_uchar (Z.land combined 255))) 0.

(** The case labels [0], [1] and [2] of [switch (pos)]. *)
Definition sm_pos_ok (pos : Z) : Prop := pos = 0 ∨ pos = 1 ∨ pos = 2.

(** The loop indices [n - 1], ..., [1], [0]. *)
Fixpoint down_from (n : nat) : list Z :=
  match n with
  | O => []
  | S i => Z.of_nat i :: down_from i
  end.

(** The table the constructor leaves in [count_lut]. *)
Definition lut_table_ok (table : list Z) : Prop :=
  length table = 1024%nat
  ∧ ∀ j, 0 ≤ j < 1024 → table !! Z.to_nat j = Some (lut_entry j).

(** Two calls (or two runs of the driver loop) on related instances: both
    undefined, or both defined with the same result and related
    instances. *)
Definition same_result {A B C : Type} (R : A → B → Prop)
    (x : option (A * C)) (y : option (B * C)) : Prop :=
  match x, y with
  | Some (a, c), Some (b, d) => c = d ∧ R a b
  | None, None => True
  | _, _ => False
  end.

(** The state machine is where the sliding bitmask's carried byte says. *)
Definition sm_sb_rel (a : StateMachine) (b : SlidingBitmask) : Prop :=
  sm_total_count a = sb_total_count b ∧ pos a = carry (sb_prev b).

(** The lookup-table matcher carries what the sliding bitmask carries. *)
Definition sb_lut_rel (a : SlidingBitmask) (b : Lut) : Prop :=
  sb_total_count a = lut_total_count b ∧ sb_prev a = lut_prev b
  ∧ lut_table_ok (count_lut b).

(** A call [pattern_match(s)] on [m] returns at least [k]: it does when it
    is defined, and it is defined when the running total has room for the
    8 matches a call can add. *)
Definition returns_at_least {M} `{Method M} (m : M) (s k : Z) : Prop :=
  (∀ m' c, pattern_match m s = Some (m', c) → k ≤ c)
  ∧ (total_count m + 8 ≤ INT_MAX → is_Some (pattern_match m s)).

(** ** main *)

(** [#define N_BYTES 10000000] and [#define BATCH_SIZE 1000]. *)
Definition N_BYTES : Z := 10000000.
Definition BATCH_SIZE : Z := 1000.

(** An element of [std::vector<std::unique_ptr<Method>> methods]: an
    instance of one of the three classes.  A virtual call dispatches on
    the class of the instance. *)
Inductive AnyMethod :=
  | IsStateMachine (m : StateMachine)
  | IsSlidingBitmask (m : SlidingBitmask)
  | IsLut (m : Lut).

Definition AnyMethod_total_count (method : AnyMethod) : Z :=
  match method with
  | IsStateMachine m => total_count m
  | IsSlidingBitmask m => total_count m
  | IsLut m => total_count m
  end.

Definition AnyMethod_pattern_match (method : AnyMethod) (sample : Z)
  : option (AnyMethod * Z) :=
  match method with
  | IsStateMachine m =>
      '(m', counter) ← pattern_match m sample;
      Some (IsStateMachine m', counter)
  | IsSlidingBitmask m =>
      '(m', counter) ← pattern_match m sample;
      Some (IsSlidingBitmask m', counter)
  | IsLut m =>
      '(m', counter) ← pattern_match m sample;
      Some (IsLut m', counter)
  end.

#[export] Instance AnyMethod_Method : Method AnyMethod := {
  total_count := AnyMethod_total_count;
  pattern_match := AnyMethod_pattern_match
}.

(** The overrides of [getName]. *)
Definition getName (method : AnyMethod) : string :=
  match method with
  | IsStateMachine _ => "StateMachine"
  | IsSlidingBitmask _ => "SlidingBitmask"
  | IsLut _ => "LUT"
  end.

(** The three [methods.push_back(std::make_unique<...>())]. *)
Definition main_methods : option (list AnyMethod) :=
  lut ← Lut_new;
  Some [IsStateMachine StateMachine_new;
        IsSlidingBitmask SlidingBitmask_new;
        IsLut lut].

(** [for (...; i++) method->pattern_match(samples[i]);] for [n] indices
    from [i] on; the source runs it from [i = 0] with [n = BATCH_SIZE].
    The returned counts are dropped. *)
Fixpoint main_samples_loop (n : nat) (i : Z) (samples : list Z)
    (method : AnyMethod) : option AnyMethod :=
  match n with
  | O => Some method
  | S n' =>
      sample ← array_get samples i;
      '(method', _) ← pattern_match method sample;
      main_samples_loop n' (i + 1) samples method'
  end.

(** [for (const auto& method : methods) { ... }] on one batch, without the
    clock readings. *)
Definition main_methods_loop (samples : list Z) (methods : list AnyMethod)
  : option (list AnyMethod) :=
  mapM (main_samples_loop (Z.to_nat BATCH_SIZE) 0 samples) methods.

(** [for (...; batch++) { ... }] for [n] batches from [batch] on; the
    source runs it from [batch = 0] with [n = N_BYTES / BATCH_SIZE].
    [read batch] is the content of the array [samples] after the read of
    that batch. *)
Fixpoint main_batch_loop (n : nat) (batch : Z) (read : Z → list Z)
    (methods : list AnyMethod) : option (list AnyMethod) :=
  match n with
  | O => Some methods
  | S n' =>
      methods' ← main_methods_loop (read batch) methods;
      main_batch_loop n' (batch + 1) read methods'
  end.

(** [main], as a function of the bytes read: the name and the total count
    printed for each method, in order (the times are left out). *)
Definition main (read : Z → list Z) : option (list (string * Z)) :=
  methods ← main_methods;
  methods ← main_batch_loop (Z.to_nat (N_BYTES / BATCH_SIZE)) 0 read methods;
  Some (map (λ method, (getName method, total_count method)) methods).

(** The bytes of the batches [batch], ..., [batch + n - 1], in the order
    [main] processes them. *)
Fixpoint main_stream (n : nat) (batch : Z) (read : Z → list Z) : list Z :=
  match n with
  | O => []
  | S n' => read batch ++ main_stream n' (batch + 1) read
  end.

(** ** The bit stream *)

(** The bits of a sequence of bytes, each byte bit 7 first. *)
Definition stream_bits (samples : list Z) : list bool :=
  concat (map byte_bits samples).

(** The number of positions of a bit sequence at which 1,1,0 starts. *)
Fixpoint count_110 (bits : list bool) : Z :=
  match bits with
  | [] => 0
  | b :: rest =>
      match b, rest with
      | true, true :: false :: _ => 1 + count_110 rest
      | _, _ => count_110 rest
      end
  end.

(** [f] holds of 0, 1, ..., n - 1. *)
Definition all_below (n : nat) (f : Z → bool) : bool :=
  forallb (λ k, f (Z.of_nat k)) (seq 0 n).

(** ** Worked examples *)

Example sm_C0 : pattern_match StateMachine_new 192 =
  Some ({| sm_total_count := 1; pos := 0 |}, 1).
Proof. reflexivity. Qed.

Example sb_C0 : pattern_match SlidingBitmask_new 192 =
  Some ({| sb_total_count := 1; sb_prev := 192 |}, 1).
Proof. reflexivity. Qed.

Example lut_C0 : (m ← Lut_new; snd <$> pattern_match m 192) = Some 1.
Proof. vm_compute. reflexivity. Qed.

Example spec_C0 : spec_process_byte 0 192 = Some (0, 1).
Proof. reflexivity. Qed.

Example window_count_0x300 : spec_window_count 768 = 1.
Proof. reflexivity. Qed.

(** ** Facts on bits *)

Lemma all_below_spec (n : nat) (f : Z → bool) :
  all_below n f = true → ∀ z, 0 ≤ z < Z.of_nat n → f z = true.
Proof.
  unfold all_below. rewrite forallb_forall. intros Hall z Hz.
  specialize (Hall (Z.to_nat z)). rewrite Z2Nat.id in Hall by lia.
  apply Hall, in_seq. lia.
Qed.

Lemma testbit_low2 (p1 p2 : Z) :
  Z.land p1 3 = Z.land p2 3 →
  ∀ k, k < 2 → Z.testbit p1 k = Z.testbit p2 k.
Proof.
  intros Heq k Hk.
  destruct (Z.ltb_spec k 0) as [Hneg|Hpos].
  { by rewrite !Z.testbit_neg_r. }
  assert (Z.testbit (Z.land p1 3) k = Z.testbit (Z.land p2 3) k) as Hbits
    by (by rewrite Heq).
  revert Hbits. change 3 with (Z.ones 2).
  rewrite !Z.land_spec, !Z.testbit_ones_nonneg by lia.
  replace (k <? 2) with true by (symmetry; apply Z.ltb_lt; lia).
  by rewrite !andb_true_r.
Qed.

Lemma to_ushort_testbit (x k : Z) :
  Z.testbit (to_ushort x) k = (k <? 16) && Z.testbit x k.
Proof.
  unfold to_ushort. change 65536 with (2 ^ 16).
  destruct (Z.ltb_spec k 0) as [Hneg|Hpos].
  { rewrite !Z.testbit_neg_r by lia. by rewrite andb_false_r. }
  by rewrite Z.testbit_mod_pow2 by lia.
Qed.

(** Bit [k] of the combined value: bit [k - 8] of [prev] or bit [k] of
    [sample]. *)
Lemma sb_combine_testbit (prev sample k : Z) :
  Z.testbit (sb_combine prev sample) k =
  (k <? 16) && (Z.testbit prev (k - 8) || Z.testbit sample k).
Proof.
  unfold sb_combine. rewrite to_ushort_testbit.
  destruct (Z.ltb_spec k 16) as [Hlt|Hge]; simpl; [|done].
  rewrite Z.lor_spec. f_equal.
  destruct (Z.ltb_spec k 0) as [Hneg|Hpos].
  { by rewrite !Z.testbit_neg_r by lia. }
  rewrite Z.shiftl_spec, to_ushort_testbit by lia.
  by replace (k - 8 <? 16) with true by (symmetry; apply Z.ltb_lt; lia).
Qed.

(** The low 10 bits of the combined value depend on [prev] through its low
    2 bits only. *)
Lemma sb_combine_low (p1 p2 sample : Z) :
  Z.land p1 3 = Z.land p2 3 →
  Z.land (sb_combine p1 sample) 1023 = Z.land (sb_combine p2 sample) 1023.
Proof.
  intros Heq. apply Z.bits_inj'. intros k Hk.
  rewrite !Z.land_spec, !sb_combine_testbit.
  change 1023 with (Z.ones 10). rewrite Z.testbit_ones_nonneg by lia.
  destruct (Z.ltb_spec k 10) as [Hlt|Hge]; [|by rewrite !andb_false_r].
  by rewrite (testbit_low2 p1 p2 Heq (k - 8)) by lia.
Qed.

(** The window at offset [i ≤ 7] lies within the low 10 bits. *)
Lemma window_low (c i : Z) :
  0 ≤ i ≤ 7 →
  Z.land (Z.shiftr c i) 7 = Z.land (Z.shiftr (Z.land c 1023) i) 7.
Proof.
  intros Hi. apply Z.bits_inj'. intros k Hk.
  change 7 with (Z.ones 3). change 1023 with (Z.ones 10).
  rewrite !Z.land_spec, !Z.shiftr_spec, Z.land_spec by lia.
  rewrite !Z.testbit_ones_nonneg by lia.
  destruct (Z.ltb_spec k 3) as [Hlt|Hge]; [|by rewrite !andb_false_r].
  replace (k + i <? 10) with true by (symmetry; apply Z.ltb_lt; lia).
  by rewrite !andb_true_r.
Qed.

Lemma sb_window_matches_low (c i : Z) :
  0 ≤ i ≤ 7 →
  sb_window_matches c i = sb_window_matches (Z.land c 1023) i.
Proof. intros Hi. unfold sb_window_matches. by rewrite window_low. Qed.

Lemma sb_loop_low (n : nat) (c counter : Z) :
  (n ≤ 8)%nat → sb_loop n c counter = sb_loop n (Z.land c 1023) counter.
Proof.
  revert counter. induction n as [|n IH]; intros counter Hn; [done|].
  simpl. rewrite <- sb_window_matches_low by lia. apply IH. lia.
Qed.

Lemma land_pow2 (a i : Z) :
  0 ≤ i → Z.land a (2 ^ i) = if Z.testbit a i then 2 ^ i else 0.
Proof.
  intros Hi. apply Z.bits_inj'. intros k Hk.
  rewrite Z.land_spec, Z.pow2_bits_eqb by lia.
  destruct (Z.eqb_spec i k) as [->|Hne].
  - rewrite andb_true_r. destruct (Z.testbit a k) eqn:Hbit.
    + by rewrite Z.pow2_bits_true.
    + by rewrite Z.bits_0.
  - rewrite andb_false_r. destruct (Z.testbit a i).
    + by rewrite Z.pow2_bits_false.
    + by rewrite Z.bits_0.
Qed.

(** [bit] is non-zero exactly when bit [i] of [sample] is set. *)
Lemma sm_bit_testbit (sample i : Z) :
  0 ≤ i ≤ 7 → negb (sm_bit sample i =? 0) = Z.testbit sample i.
Proof.
  intros Hi. unfold sm_bit, to_uchar.
  rewrite Z.shiftl_1_l, land_pow2 by lia.
  destruct (Z.testbit sample i); [|done].
  assert (0 < 2 ^ i ≤ 2 ^ 7) as Hpow.
  { split; [apply Z.pow_pos_nonneg; lia | apply Z.pow_le_mono_r; lia]. }
  rewrite Z.mod_small by lia.
  destruct (Z.eqb_spec (2 ^ i) 0); [lia | done].
Qed.

(** ** Facts on [int] and arrays *)

Lemma int_add_Some (a b c : Z) :
  int_add a b = Some c ↔ c = a + b ∧ INT_MIN ≤ a + b ≤ INT_MAX.
Proof.
  unfold int_add, in_int. split.
  - destruct (Z.leb_spec INT_MIN (a + b)) as [Hlo|Hlo],
      (Z.leb_spec (a + b) INT_MAX) as [Hhi|Hhi];
      simpl; intros [= <-]; lia.
  - intros [-> [Hlo Hhi]]. apply Z.leb_le in Hlo, Hhi. by rewrite Hlo, Hhi.
Qed.

Lemma int_add_in_range (a b : Z) :
  INT_MIN ≤ a + b ≤ INT_MAX → int_add a b = Some (a + b).
Proof. intros H. by apply int_add_Some. Qed.

Lemma array_get_Some (arr : list Z) (i v : Z) :
  array_get arr i = Some v ↔ 0 ≤ i ∧ arr !! Z.to_nat i = Some v.
Proof.
  unfold array_get. destruct (Z.leb_spec 0 i) as [Hi|Hi]; split.
  - done.
  - by intros [_ ?].
  - done.
  - intros [? _]. lia.
Qed.

(** ** Facts on the state machine *)

Lemma sm_switch_ok (p : Z) : sm_pos_ok p ↔ sm_switch p ≠ Case_default.
Proof.
  unfold sm_pos_ok, sm_switch.
  destruct (Z.eqb_spec p 0), (Z.eqb_spec p 1), (Z.eqb_spec p 2);
    simpl; split; intros Hp; try done; lia.
Qed.

(** A transition maps {0, 1, 2} into {0, 1, 2}. *)
Lemma sm_transition_closed (p counter bit : Z) :
  sm_pos_ok p → sm_pos_ok (sm_transition p counter bit).1.
Proof.
  unfold sm_pos_ok, sm_transition, sm_switch.
  intros [->|[->| ->]]; simpl; destruct (bit =? 0); simpl; lia.
Qed.

Lemma sm_transition_counter (p counter bit : Z) :
  counter ≤ (sm_transition p counter bit).2 ≤ counter + 1.
Proof.
  unfold sm_transition. destruct (sm_switch p), (bit =? 0); simpl; lia.
Qed.

(** The new position does not depend on the counter. *)
Lemma sm_transition_pos (p c1 c2 bit : Z) :
  (sm_transition p c1 bit).1 = (sm_transition p c2 bit).1.
Proof.
  unfold sm_transition. by destruct (sm_switch p), (bit =? 0).
Qed.

(** On {0, 1, 2} the loop body is the transition of the specification. *)
Lemma sm_transition_spec (p counter bit : Z) :
  sm_pos_ok p →
  spec_transition p (negb (bit =? 0)) counter
  = Some (sm_transition p counter bit).
Proof.
  unfold sm_pos_ok, spec_transition, sm_transition, sm_switch.
  intros [->|[->| ->]]; simpl; by destruct (bit =? 0).
Qed.

Lemma sm_loop_closed (n : nat) (sample p counter : Z) :
  sm_pos_ok p → sm_pos_ok (sm_loop n sample p counter).1.
Proof.
  revert p counter. induction n as [|n IH]; intros p counter Hp; [done|].
  simpl.
  pose proof (sm_transition_closed p counter (sm_bit sample (Z.of_nat n)) Hp)
    as Hstep.
  destruct (sm_transition p counter (sm_bit sample (Z.of_nat n))) as [p' c'].
  by apply IH.
Qed.

Lemma sm_loop_counter (n : nat) (sample p counter : Z) :
  counter ≤ (sm_loop n sample p counter).2 ≤ counter + Z.of_nat n.
Proof.
  revert p counter. induction n as [|n IH]; intros p counter; simpl; [lia|].
  pose proof (sm_transition_counter p counter (sm_bit sample (Z.of_nat n)))
    as Hstep.
  destruct (sm_transition p counter (sm_bit sample (Z.of_nat n))) as [p' c'].
  simpl in Hstep. specialize (IH p' c'). lia.
Qed.

(** The loop over [i = n - 1 .. 0] is the run of the specification's
    automaton over the bits [n - 1 .. 0] of the sample. *)
Lemma sm_loop_spec (n : nat) (sample p counter : Z) :
  (n ≤ 8)%nat → sm_pos_ok p →
  spec_transitions (map (Z.testbit sample) (down_from n)) p counter
  = Some (sm_loop n sample p counter).
Proof.
  revert p counter. induction n as [|n IH]; intros p counter Hn Hp; [done|].
  simpl. rewrite <- sm_bit_testbit by lia.
  rewrite sm_transition_spec by done. simpl.
  pose proof (sm_transition_closed p counter (sm_bit sample (Z.of_nat n)) Hp)
    as Hstep.
  destruct (sm_transition p counter (sm_bit sample (Z.of_nat n))) as [p' c'].
  apply IH; [lia | done].
Qed.

(** Every value on which the switch is evaluated is one of its labels. *)
Lemma sm_switch_trace_ok (n : nat) (sample p : Z) :
  sm_pos_ok p → Forall sm_pos_ok (sm_switch_trace n sample p).
Proof.
  revert p. induction n as [|n IH]; intros p Hp; simpl; constructor; [done|].
  by apply IH, sm_transition_closed.
Qed.

(** The call in terms of its loop. *)
Lemma StateMachine_pattern_match_eq (m : StateMachine) (sample : Z) :
  pattern_match m sample =
  (total ← int_add (sm_total_count m) (sm_loop 8 sample (pos m) 0).2;
   Some ({| sm_total_count := total;
            pos := (sm_loop 8 sample (pos m) 0).1 |},
         (sm_loop 8 sample (pos m) 0).2)).
Proof.
  change (pattern_match m sample) with (StateMachine_pattern_match m sample).
  unfold StateMachine_pattern_match.
  by destruct (sm_loop 8 sample (pos m) 0).
Qed.

(** ** Facts on the sliding bitmask *)

Lemma sb_loop_counter (n : nat) (c counter : Z) :
  counter ≤ sb_loop n c counter ≤ counter + Z.of_nat n.
Proof.
  revert counter. induction n as [|n IH]; intros counter; simpl; [lia|].
  destruct (sb_window_matches c (Z.of_nat n)).
  - specialize (IH (counter + 1)). lia.
  - specialize (IH counter). lia.
Qed.

(** The count of a call depends on the carried byte through its low 2 bits
    only. *)
Lemma sb_count_low2 (p1 p2 sample : Z) :
  Z.land p1 3 = Z.land p2 3 →
  sb_loop 8 (sb_combine p1 sample) 0 = sb_loop 8 (sb_combine p2 sample) 0.
Proof.
  intros Heq.
  rewrite (sb_loop_low 8 (sb_combine p1 sample)) by lia.
  rewrite (sb_loop_low 8 (sb_combine p2 sample)) by lia.
  by rewrite (sb_combine_low p1 p2 sample Heq).
Qed.

Lemma SlidingBitmask_pattern_match_eq (m : SlidingBitmask) (sample : Z) :
  pattern_match m sample =
  (total ← int_add (sb_total_count m)
             (sb_loop 8 (sb_combine (sb_prev m) sample) 0);
   Some ({| sb_total_count := total; sb_prev := sample |},
         sb_loop 8 (sb_combine (sb_prev m) sample) 0)).
Proof. reflexivity. Qed.

Lemma land_3_range (p : Z) : 0 ≤ Z.land p 3 < 4.
Proof.
  change 3 with (Z.ones 2). rewrite Z.land_ones by lia.
  apply Z.mod_pos_bound. lia.
Qed.

Lemma land_1023_range (c : Z) : 0 ≤ Z.land c 1023 < 1024.
Proof.
  change 1023 with (Z.ones 10). rewrite Z.land_ones by lia.
  apply Z.mod_pos_bound. lia.
Qed.

Lemma land_3_idem (p : Z) : Z.land (Z.land p 3) 3 = Z.land p 3.
Proof. by rewrite <- Z.land_assoc. Qed.

Lemma carry_low2 (p : Z) : carry (Z.land p 3) = carry p.
Proof.
  unfold carry. rewrite land_3_idem.
  by replace (Z.land (Z.land p 3) 1) with (Z.land p 1)
    by (by rewrite <- Z.land_assoc).
Qed.

(** ** The state machine and the sliding bitmask, call by call *)

(** Checked on all 4 values of the two carried bits and all 256 samples. *)
Lemma sm_sb_step_below :
  all_below 4 (λ p, all_below 256 (λ sample,
    let r := sm_loop 8 sample (carry p) 0 in
    (r.1 =? carry sample)
    && (r.2 =? sb_loop 8 (sb_combine p sample) 0))) = true.
Proof. vm_compute. reflexivity. Qed.

(** From the position that corresponds to the carried byte, the state
    machine counts what the sliding bitmask counts, and ends in the
    position that corresponds to the sample. *)
Lemma sm_sb_step (prev sample : Z) :
  is_uchar sample →
  sm_loop 8 sample (carry prev) 0
  = (carry sample, sb_loop 8 (sb_combine prev sample) 0).
Proof.
  intros Hs.
  rewrite <- (carry_low2 prev).
  rewrite (sb_count_low2 prev (Z.land prev 3) sample)
    by (by rewrite land_3_idem).
  pose proof (all_below_spec _ _ sm_sb_step_below _ (land_3_range prev))
    as Hp. cbv beta in Hp.
  pose proof (all_below_spec _ _ Hp sample Hs) as Hcheck.
  cbv beta zeta in Hcheck.
  apply andb_true_iff in Hcheck as [H1 H2].
  apply Z.eqb_eq in H1, H2.
  rewrite <- H1, <- H2.
  by destruct (sm_loop 8 sample (carry (Z.land prev 3)) 0).
Qed.

(** ** Construction of the lookup table *)

(** One iteration of the constructor's loop stores [lut_entry] at the
    current index. *)
Lemma Lut_build_step (fuel : nat) (c : Z) (table : list Z) :
  0 ≤ c < Z.of_nat (length table) →
  Lut_build (S fuel) c table
  = Lut_build fuel (to_ushort (c + 1)) (<[Z.to_nat c := lut_entry c]> table).
Proof.
  intros Hc. cbn [Lut_build].
  replace (c <? Z.of_nat (length table)) with true
    by (symmetry; apply Z.ltb_lt; lia).
  rewrite SlidingBitmask_pattern_match_eq.
  set (c1 := sb_loop 8 (sb_combine (sb_prev SlidingBitmask_new)
                          (to_uchar (Z.shiftr c 8))) 0).
  pose proof (sb_loop_counter 8
    (sb_combine (sb_prev SlidingBitmask_new) (to_uchar (Z.shiftr c 8))) 0)
    as Hc1. fold c1 in Hc1.
  rewrite (int_add_in_range _ c1)
    by (unfold INT_MIN, INT_MAX; simpl; lia).
  cbn [mbind option_bind]. rewrite SlidingBitmask_pattern_match_eq.
  cbn [sb_prev sb_total_count].
  set (c2 := sb_loop 8 (sb_combine (to_uchar (Z.shiftr c 8))
                          (to_uchar (Z.land c 255))) 0).
  pose proof (sb_loop_counter 8
    (sb_combine (to_uchar (Z.shiftr c 8)) (to_uchar (Z.land c 255))) 0)
    as Hc2. fold c2 in Hc2.
  rewrite (int_add_in_range _ c2)
    by (unfold INT_MIN, INT_MAX; simpl; lia).
  cbn [mbind option_bind].
  rewrite (int_add_in_range c1 c2) by (unfold INT_MIN, INT_MAX; lia).
  cbn [mbind option_bind]. unfold array_set.
  replace (0 <=? c) with true by (symmetry; apply Z.leb_le; lia).
  replace (c <? Z.of_nat (length table)) with true
    by (symmetry; apply Z.ltb_lt; lia).
  reflexivity.
Qed.

(** The loop from index [c] on: it ends, keeps the entries below [c] and
    stores [lut_entry] at every index from [c] on. *)
Lemma Lut_build_from (k fuel : nat) (c : Z) (table : list Z) :
  length table = 1024%nat → 0 ≤ c → c + Z.of_nat k = 1024 →
  (k < fuel)%nat →
  ∃ table',
    Lut_build fuel c table = Some table'
    ∧ length table' = 1024%nat
    ∧ (∀ j, c ≤ j < 1024 → table' !! Z.to_nat j = Some (lut_entry j))
    ∧ (∀ j, 0 ≤ j < c → table' !! Z.to_nat j = table !! Z.to_nat j).
Proof.
  revert fuel c table.
  induction k as [|k IH]; intros fuel c table Hlen Hc Hk Hfuel.
  - destruct fuel as [|fuel]; [lia|]. exists table. cbn [Lut_build].
    replace (c <? Z.of_nat (length table)) with false
      by (symmetry; apply Z.ltb_ge; lia).
    split; [done|]. split; [done|]. split; [intros j Hj; lia | done].
  - destruct fuel as [|fuel]; [lia|].
    rewrite Lut_build_step by lia.
    replace (to_ushort (c + 1)) with (c + 1)
      by (unfold to_ushort; rewrite Z.mod_small; lia).
    destruct (IH fuel (c + 1) (<[Z.to_nat c := lut_entry c]> table))
      as (table' & Hrun & Hlen' & Hnew & Hold);
      [by rewrite length_insert | lia | lia | lia |].
    exists table'. split; [done|]. split; [done|]. split.
    + intros j Hj. destruct (decide (j = c)) as [->|Hne].
      * rewrite Hold by lia. apply list_lookup_insert_eq. lia.
      * apply Hnew. lia.
    + intros j Hj. rewrite Hold by lia.
      apply list_lookup_insert_ne. lia.
Qed.

(** The constructor returns, with the table filled. *)
Lemma Lut_new_ok :
  ∃ table,
    Lut_new = Some {| lut_total_count := 0; lut_prev := 0;
                      count_lut := table |}
    ∧ lut_table_ok table.
Proof.
  destruct (Lut_build_from 1024 1025 0 (replicate 1024 0))
    as (table & Hrun & Hlen & Hnew & _);
    [by rewrite length_replicate | lia | lia | lia |].
  exists table. unfold Lut_new. rewrite Hrun. split; [done|].
  split; [done|]. intros j Hj. apply Hnew. lia.
Qed.

(** More fuel than the 1025 evaluations of the loop condition changes
    nothing. *)
Lemma Lut_build_fuel (fuel : nat) :
  (1025 ≤ fuel)%nat →
  Lut_build fuel 0 (replicate 1024 0) = Lut_build 1025 0 (replicate 1024 0).
Proof.
  intros Hfuel.
  destruct (Lut_build_from 1024 1025 0 (replicate 1024 0))
    as (t1 & Hrun1 & Hlen1 & Hnew1 & _);
    [by rewrite length_replicate | lia | lia | lia |].
  destruct (Lut_build_from 1024 fuel 0 (replicate 1024 0))
    as (t2 & Hrun2 & Hlen2 & Hnew2 & _);
    [by rewrite length_replicate | lia | lia | lia |].
  rewrite Hrun1, Hrun2. f_equal. apply list_eq. intros i.
  destruct (decide (i < 1024)%nat) as [Hi|Hi].
  - specialize (Hnew1 (Z.of_nat i)). specialize (Hnew2 (Z.of_nat i)).
    rewrite Nat2Z.id in Hnew1, Hnew2.
    rewrite Hnew1, Hnew2 by lia. done.
  - rewrite !lookup_ge_None_2 by lia. done.
Qed.

(** ** Lookups in the table *)

(** Checked on all 1024 indices: the first synthetic byte contributes
    nothing, the entry counts the windows of the index itself, and that
    count is the number of windows reading 1,1,0. *)
Lemma lut_entry_below :
  all_below 1024 (λ j,
    (sb_loop 8 (sb_combine 0 (to_uchar (Z.shiftr j 8))) 0 =? 0)
    && (lut_entry j =? sb_loop 8 j 0)
    && (lut_entry j =? spec_window_count j)) = true.
Proof. vm_compute. reflexivity. Qed.

Lemma lut_entry_sb (j : Z) :
  0 ≤ j < 1024 → lut_entry j = sb_loop 8 j 0.
Proof.
  intros Hj. pose proof (all_below_spec _ _ lut_entry_below j Hj) as Hcheck.
  cbv beta in Hcheck.
  apply andb_true_iff in Hcheck as [Hcheck _].
  apply andb_true_iff in Hcheck as [_ Hcheck].
  by apply Z.eqb_eq in Hcheck.
Qed.

Lemma lut_entry_windows (j : Z) :
  0 ≤ j < 1024 → lut_entry j = spec_window_count j.
Proof.
  intros Hj. pose proof (all_below_spec _ _ lut_entry_below j Hj) as Hcheck.
  cbv beta in Hcheck.
  apply andb_true_iff in Hcheck as [_ Hcheck].
  by apply Z.eqb_eq in Hcheck.
Qed.

Lemma lut_first_pass_zero (j : Z) :
  0 ≤ j < 1024 →
  sb_loop 8 (sb_combine 0 (to_uchar (Z.shiftr j 8))) 0 = 0.
Proof.
  intros Hj. pose proof (all_below_spec _ _ lut_entry_below j Hj) as Hcheck.
  cbv beta in Hcheck.
  apply andb_true_iff in Hcheck as [Hcheck _].
  apply andb_true_iff in Hcheck as [Hcheck _].
  by apply Z.eqb_eq in Hcheck.
Qed.

(** The index of the lookup is the low 10 bits of the sliding bitmask's
    combined value. *)
Lemma lut_index (prev sample : Z) :
  to_ushort (Z.land (Z.lor (Z.shiftl (to_ushort prev) 8) sample) 1023)
  = Z.land (sb_combine prev sample) 1023.
Proof.
  apply Z.bits_inj'. intros k Hk. unfold sb_combine.
  rewrite !to_ushort_testbit, !Z.land_spec, to_ushort_testbit.
  by rewrite andb_assoc.
Qed.

(** With the constructed table, the lookup returns the sliding bitmask's
    count. *)
Lemma Lut_lookup (table : list Z) (prev sample : Z) :
  lut_table_ok table →
  array_get table
    (to_ushort (Z.land (Z.lor (Z.shiftl (to_ushort prev) 8) sample) 1023))
  = Some (sb_loop 8 (sb_combine prev sample) 0).
Proof.
  intros [_ Htable]. rewrite lut_index.
  pose proof (land_1023_range (sb_combine prev sample)) as Hrange.
  apply array_get_Some. split; [lia|].
  rewrite Htable, lut_entry_sb by done.
  by rewrite <- sb_loop_low by lia.
Qed.

Lemma Lut_pattern_match_eq (m : Lut) (sample : Z) :
  lut_table_ok (count_lut m) →
  pattern_match m sample =
  (total ← int_add (lut_total_count m)
             (sb_loop 8 (sb_combine (lut_prev m) sample) 0);
   Some ({| lut_total_count := total; lut_prev := sample;
            count_lut := count_lut m |},
         sb_loop 8 (sb_combine (lut_prev m) sample) 0)).
Proof.
  intros Htable.
  change (pattern_match m sample) with (Lut_pattern_match m sample).
  unfold Lut_pattern_match. by rewrite Lut_lookup.
Qed.

(** ** The driver loop *)

Lemma feed_app {M} `{Method M} (l1 l2 : list Z) (m : M) :
  feed m (l1 ++ l2) =
  ('(m1, cs1) ← feed m l1;
   '(m2, cs2) ← feed m1 l2;
   Some (m2, cs1 ++ cs2)).
Proof.
  revert m. induction l1 as [|s l1 IH]; intros m; simpl.
  - by destruct (feed m l2) as [[m2 cs2]|].
  - destruct (pattern_match m s) as [[m1 c]|]; simpl; [|done].
    rewrite IH. destruct (feed m1 l1) as [[m1' cs1]|]; simpl; [|done].
    by destruct (feed m1' l2) as [[m2 cs2]|].
Qed.

(** *** The contract of a matcher

    A call from an instance satisfying [Inv] counts between 0 and 8
    matches, adds them to the running total, and is defined unless that
    addition overflows. *)
Section Contract.
Context {M : Type} `{Method M} (Inv : M → Prop).
Hypothesis step : ∀ m s, Inv m →
  ∃ m' c, 0 ≤ c ≤ 8 ∧ Inv m' ∧ total_count m' = total_count m + c
    ∧ pattern_match m s = (_ ← int_add (total_count m) c; Some (m', c)).

Lemma call_sound (m m' : M) (s c : Z) :
  Inv m → pattern_match m s = Some (m', c) →
  Inv m' ∧ 0 ≤ c ≤ 8 ∧ total_count m' = total_count m + c.
Proof.
  intros Hinv Hcall.
  destruct (step m s Hinv) as (m1 & c1 & Hc & Hinv' & Htotal & Heq).
  rewrite Heq in Hcall.
  destruct (int_add (total_count m) c1); simpl in Hcall; [|done].
  by injection Hcall as <- <-.
Qed.

Lemma call_defined (m : M) (s : Z) :
  Inv m → INT_MIN ≤ total_count m → total_count m + 8 ≤ INT_MAX →
  is_Some (pattern_match m s).
Proof.
  intros Hinv Hlo Hhi.
  destruct (step m s Hinv) as (m1 & c1 & Hc & Hinv' & Htotal & Heq).
  rewrite Heq, int_add_in_range by lia. by eexists.
Qed.

Lemma feed_sound (l : list Z) (m m' : M) (cs : list Z) :
  Inv m → feed m l = Some (m', cs) →
  Inv m' ∧ length cs = length l ∧ Forall (λ c, 0 ≤ c ≤ 8) cs
  ∧ total_count m ≤ total_count m'
      ≤ total_count m + 8 * Z.of_nat (length l).
Proof.
  revert m cs. induction l as [|s l IH]; intros m cs Hinv Hfeed.
  - injection Hfeed as <- <-. simpl. repeat split; try done; lia.
  - simpl in Hfeed.
    destruct (pattern_match m s) as [[m1 c]|] eqn:Hcall; [|done].
    simpl in Hfeed.
    destruct (feed m1 l) as [[m2 cs2]|] eqn:Hrest; [|done].
    injection Hfeed as <- <-.
    destruct (call_sound _ _ _ _ Hinv Hcall) as (Hinv1 & Hc & Htotal).
    destruct (IH _ _ Hinv1 Hrest) as (Hinv2 & Hlen & Hcs & Hbound).
    split; [done|]. split; [simpl; by rewrite Hlen|].
    split; [by constructor|]. simpl length. lia.
Qed.

Lemma feed_defined (l : list Z) (m : M) :
  Inv m → INT_MIN ≤ total_count m →
  total_count m + 8 * Z.of_nat (length l) ≤ INT_MAX →
  is_Some (feed m l).
Proof.
  revert m. induction l as [|s l IH]; intros m Hinv Hlo Hhi.
  - by eexists.
  - simpl length in Hhi.
    destruct (call_defined m s Hinv Hlo) as [[m1 c] Hcall]; [lia|].
    destruct (call_sound _ _ _ _ Hinv Hcall) as (Hinv1 & Hc & Htotal).
    destruct (IH m1 Hinv1) as [[m2 cs] Hrest]; [lia | lia |].
    simpl. rewrite Hcall. simpl. rewrite Hrest. by eexists.
Qed.

End Contract.

(** *** Related instances stay related *)
Section Simulation.
Context {A B : Type} `{Method A} `{Method B} (R : A → B → Prop).
Hypothesis R_total : ∀ a b, R a b → total_count a = total_count b.
Hypothesis R_step : ∀ a b s, is_uchar s → R a b →
  same_result R (pattern_match a s) (pattern_match b s).

Lemma feed_sim (l : list Z) (a : A) (b : B) :
  Forall is_uchar l → R a b → same_result R (feed a l) (feed b l).
Proof.
  revert a b. induction l as [|s l IH]; intros a b Hl HR; [done|].
  apply Forall_cons in Hl as [Hs Hl]. simpl.
  pose proof (R_step a b s Hs HR) as Hstep.
  destruct (pattern_match a s) as [[a1 c]|],
    (pattern_match b s) as [[b1 d]|]; simpl in *; try done.
  destruct Hstep as [<- HR1].
  pose proof (IH a1 b1 Hl HR1) as Hrest.
  destruct (feed a1 l) as [[a2 cs]|], (feed b1 l) as [[b2 ds]|];
    simpl in *; try done.
  by destruct Hrest as [<- HR2].
Qed.

Lemma total_after_sim (l : list Z) (a : A) (b : B) :
  Forall is_uchar l → R a b → total_after a l = total_after b l.
Proof.
  intros Hl HR. unfold total_after.
  pose proof (feed_sim l a b Hl HR) as Hsim.
  destruct (feed a l) as [[a' cs]|], (feed b l) as [[b' ds]|];
    simpl in *; try done.
  destruct Hsim as [_ HR']. by rewrite (R_total _ _ HR').
Qed.

End Simulation.

(** *** The three matchers satisfy the contract *)

#[local] Arguments sm_loop : simpl never.
#[local] Arguments sb_loop : simpl never.

Lemma int_add_bind {X : Type} (t c : Z) (f : Z → X) :
  (total ← int_add t c; Some (f total, c))
  = (_ ← int_add t c; Some (f (t + c), c)).
Proof. unfold int_add. by destruct (in_int (t + c)). Qed.

Lemma StateMachine_step (m : StateMachine) (s : Z) :
  sm_pos_ok (pos m) →
  ∃ m' c, 0 ≤ c ≤ 8 ∧ sm_pos_ok (pos m')
    ∧ total_count m' = total_count m + c
    ∧ pattern_match m s = (_ ← int_add (total_count m) c; Some (m', c)).
Proof.
  intros Hpos.
  exists {| sm_total_count := sm_total_count m + (sm_loop 8 s (pos m) 0).2;
            pos := (sm_loop 8 s (pos m) 0).1 |}, (sm_loop 8 s (pos m) 0).2.
  pose proof (sm_loop_counter 8 s (pos m) 0) as Hc.
  split; [lia|]. split; [by apply sm_loop_closed|]. split; [done|].
  rewrite StateMachine_pattern_match_eq.
  apply (int_add_bind _ _
    (λ t, {| sm_total_count := t; pos := (sm_loop 8 s (pos m) 0).1 |})).
Qed.

Lemma SlidingBitmask_step (m : SlidingBitmask) (s : Z) :
  True →
  ∃ m' c, 0 ≤ c ≤ 8 ∧ True
    ∧ total_count m' = total_count m + c
    ∧ pattern_match m s = (_ ← int_add (total_count m) c; Some (m', c)).
Proof.
  intros _.
  exists {| sb_total_count :=
              sb_total_count m + sb_loop 8 (sb_combine (sb_prev m) s) 0;
            sb_prev := s |}, (sb_loop 8 (sb_combine (sb_prev m) s) 0).
  pose proof (sb_loop_counter 8 (sb_combine (sb_prev m) s) 0) as Hc.
  split; [lia|]. split; [done|]. split; [done|].
  rewrite SlidingBitmask_pattern_match_eq.
  apply (int_add_bind _ _
    (λ t, {| sb_total_count := t; sb_prev := s |})).
Qed.

Lemma Lut_step (m : Lut) (s : Z) :
  lut_table_ok (count_lut m) →
  ∃ m' c, 0 ≤ c ≤ 8 ∧ lut_table_ok (count_lut m')
    ∧ total_count m' = total_count m + c
    ∧ pattern_match m s = (_ ← int_add (total_count m) c; Some (m', c)).
Proof.
  intros Htable.
  exists {| lut_total_count :=
              lut_total_count m + sb_loop 8 (sb_combine (lut_prev m) s) 0;
            lut_prev := s; count_lut := count_lut m |},
    (sb_loop 8 (sb_combine (lut_prev m) s) 0).
  pose proof (sb_loop_counter 8 (sb_combine (lut_prev m) s) 0) as Hc.
  split; [lia|]. split; [done|]. split; [done|].
  rewrite Lut_pattern_match_eq by done.
  apply (int_add_bind _ _
    (λ t, {| lut_total_count := t; lut_prev := s;
             count_lut := count_lut m |})).
Qed.

(** *** The three matchers simulate one another *)

Lemma sm_sb_rel_step (a : StateMachine) (b : SlidingBitmask) (s : Z) :
  is_uchar s → sm_sb_rel a b →
  same_result sm_sb_rel (pattern_match a s) (pattern_match b s).
Proof.
  intros Hs [Htotal Hpos].
  rewrite StateMachine_pattern_match_eq, SlidingBitmask_pattern_match_eq.
  rewrite Hpos, sm_sb_step, Htotal by done. simpl.
  destruct (int_add (sb_total_count b)
              (sb_loop 8 (sb_combine (sb_prev b) s) 0)); simpl; [|done].
  by repeat split.
Qed.

Lemma sb_lut_rel_step (a : SlidingBitmask) (b : Lut) (s : Z) :
  is_uchar s → sb_lut_rel a b →
  same_result sb_lut_rel (pattern_match a s) (pattern_match b s).
Proof.
  intros _ (Htotal & Hprev & Htable).
  rewrite SlidingBitmask_pattern_match_eq, Lut_pattern_match_eq by done.
  rewrite Hprev, Htotal.
  destruct (int_add (lut_total_count b)
              (sb_loop 8 (sb_combine (lut_prev b) s) 0)); simpl; [|done].
  split; [done|]. split; [done|]. by split.
Qed.

Lemma sm_sb_rel_new : sm_sb_rel StateMachine_new SlidingBitmask_new.
Proof. by split. Qed.

Lemma sm_sb_rel_total (a : StateMachine) (b : SlidingBitmask) :
  sm_sb_rel a b → total_count a = total_count b.
Proof. by intros [? _]. Qed.

Lemma sb_lut_rel_total (a : SlidingBitmask) (b : Lut) :
  sb_lut_rel a b → total_count a = total_count b.
Proof. by intros [? _]. Qed.

Lemma sb_lut_rel_new (table : list Z) :
  lut_table_ok table →
  sb_lut_rel SlidingBitmask_new
    {| lut_total_count := 0; lut_prev := 0; count_lut := table |}.
Proof. by intros Htable. Qed.

Lemma total_after_defined {M} `{Method M} (m : M) (l : list Z) :
  is_Some (feed m l) → is_Some (total_after m l).
Proof. intros Hfeed. unfold total_after. by apply fmap_is_Some. Qed.

(** ** Equivalence of the three matchers *)

(** C1.  Fed the same bytes in the same order, a fresh StateMachine, a
    fresh SlidingBitmask and a fresh Lut have the same running total after
    every prefix of the sequence (the totals are undefined together, when
    the [int] total overflows); for a sequence of at most INT_MAX / 8 bytes
    every one of these totals is defined. *)
Theorem C1_totals_equal_after_every_prefix (samples : list Z) :
  Forall is_uchar samples →
  ∃ lut, Lut_new = Some lut ∧
    ∀ n : nat,
      total_after StateMachine_new (take n samples)
      = total_after SlidingBitmask_new (take n samples)
      ∧ total_after SlidingBitmask_new (take n samples)
        = total_after lut (take n samples)
      ∧ (8 * Z.of_nat (length samples) ≤ INT_MAX →
         is_Some (total_after StateMachine_new (take n samples))).
Proof.
  intros Hsamples.
  destruct Lut_new_ok as (table & Hnew & Htable).
  eexists. split; [exact Hnew|]. intros n.
  assert (Forall is_uchar (take n samples)) as Hn by by apply Forall_take.
  split; [|split].
  - apply (total_after_sim sm_sb_rel sm_sb_rel_total sm_sb_rel_step);
      [done | apply sm_sb_rel_new].
  - apply (total_after_sim sb_lut_rel sb_lut_rel_total sb_lut_rel_step);
      [done | by apply sb_lut_rel_new].
  - intros Hlen. apply total_after_defined.
    apply (feed_defined (λ m, sm_pos_ok (pos m)) StateMachine_step).
    + by left.
    + done.
    + change (total_count StateMachine_new) with 0.
      rewrite length_take. lia.
Qed.

Lemma C1_totals_equal_witness :
  ∃ lut, Lut_new = Some lut ∧
    ∀ n : nat,
      total_after StateMachine_new (take n [192; 3; 0; 255; 27; 96])
      = total_after SlidingBitmask_new (take n [192; 3; 0; 255; 27; 96])
      ∧ total_after SlidingBitmask_new (take n [192; 3; 0; 255; 27; 96])
        = total_after lut (take n [192; 3; 0; 255; 27; 96])
      ∧ (8 * Z.of_nat (length [192; 3; 0; 255; 27; 96]) ≤ INT_MAX →
         is_Some (total_after StateMachine_new
                    (take n [192; 3; 0; 255; 27; 96]))).
Proof.
  apply (C1_totals_equal_after_every_prefix [192; 3; 0; 255; 27; 96]).
  repeat constructor; unfold is_uchar; lia.
Defined.

(** ** The table *)

Lemma small_shiftr_8 (c : Z) : 0 ≤ c < 1024 → 0 ≤ Z.shiftr c 8 < 4.
Proof.
  intros Hc. rewrite Z.shiftr_div_pow2 by lia. change (2 ^ 8) with 256.
  split; [apply Z.div_pos; lia | apply Z.div_lt_upper_bound; lia].
Qed.

Lemma land_255_range (c : Z) : 0 ≤ Z.land c 255 < 256.
Proof.
  change 255 with (Z.ones 8). rewrite Z.land_ones by lia.
  apply Z.mod_pos_bound. lia.
Qed.

(** C2.  For every index 0 ≤ combined < 1024 the constructor returns with
    count_lut[combined] equal to the sum of the counts a fresh
    SlidingBitmask returns for the bytes combined >> 8 and combined & 0xFF
    (its running total after the two calls), which is the number of
    windows reading 1,1,0 among the 8 windows of the 10-bit value. *)
Theorem C2_lut_entry_is_sliding_count (combined : Z) :
  0 ≤ combined < 1024 →
  ∃ lut m1 c1 m2 c2,
    Lut_new = Some lut
    ∧ pattern_match SlidingBitmask_new (Z.shiftr combined 8) = Some (m1, c1)
    ∧ pattern_match m1 (Z.land combined 255) = Some (m2, c2)
    ∧ array_get (count_lut lut) combined = Some (c1 + c2)
    ∧ total_count m2 = c1 + c2
    ∧ c1 + c2 = spec_window_count combined.
Proof.
  intros Hc.
  destruct Lut_new_ok as (table & Hnew & Hlen & Htable).
  pose proof (small_shiftr_8 combined Hc) as Hhi.
  pose proof (land_255_range combined) as Hlo.
  assert (to_uchar (Z.shiftr combined 8) = Z.shiftr combined 8) as Ehi
    by (unfold to_uchar; rewrite Z.mod_small; lia).
  assert (to_uchar (Z.land combined 255) = Z.land combined 255) as Elo
    by (unfold to_uchar; rewrite Z.mod_small; lia).
  set (c1 := sb_loop 8 (sb_combine 0 (Z.shiftr combined 8)) 0).
  set (c2 := sb_loop 8
               (sb_combine (Z.shiftr combined 8) (Z.land combined 255)) 0).
  assert (lut_entry combined = c1 + c2) as Hentry
    by (unfold lut_entry; by rewrite Ehi, Elo).
  pose proof (sb_loop_counter 8 (sb_combine 0 (Z.shiftr combined 8)) 0)
    as Hc1. fold c1 in Hc1.
  pose proof (sb_loop_counter 8
    (sb_combine (Z.shiftr combined 8) (Z.land combined 255)) 0) as Hc2.
  fold c2 in Hc2.
  exists {| lut_total_count := 0; lut_prev := 0; count_lut := table |},
    {| sb_total_count := 0 + c1; sb_prev := Z.shiftr combined 8 |}, c1,
    {| sb_total_count := 0 + c1 + c2; sb_prev := Z.land combined 255 |}, c2.
  split; [done|]. split.
  { rewrite SlidingBitmask_pattern_match_eq. cbn [sb_prev sb_total_count
      SlidingBitmask_new]. fold c1.
    by rewrite int_add_in_range by (unfold INT_MIN, INT_MAX; lia). }
  split.
  { rewrite SlidingBitmask_pattern_match_eq. cbn [sb_prev sb_total_count].
    fold c2.
    by rewrite int_add_in_range by (unfold INT_MIN, INT_MAX; lia). }
  split.
  { apply array_get_Some. split; [lia|]. cbn [count_lut].
    by rewrite Htable, Hentry. }
  split; [done|].
  by rewrite <- Hentry, lut_entry_windows.
Qed.

Lemma C2_lut_entry_witness :
  ∃ lut m1 c1 m2 c2,
    Lut_new = Some lut
    ∧ pattern_match SlidingBitmask_new (Z.shiftr 865 8) = Some (m1, c1)
    ∧ pattern_match m1 (Z.land 865 255) = Some (m2, c2)
    ∧ array_get (count_lut lut) 865 = Some (c1 + c2)
    ∧ total_count m2 = c1 + c2
    ∧ c1 + c2 = spec_window_count 865.
Proof. apply (C2_lut_entry_is_sliding_count 865). lia. Defined.

(** ** The state machine against the automaton of the specification *)

Lemma sm_call_spec (sample p : Z) :
  sm_pos_ok p →
  spec_process_byte p sample = Some (sm_loop 8 sample p 0).
Proof.
  intros Hp. unfold spec_process_byte.
  change (byte_bits sample) with (map (Z.testbit sample) (down_from 8)).
  apply sm_loop_spec; [lia | exact Hp].
Qed.

Lemma sm_feed_spec (samples : list Z) (m m' : StateMachine)
    (counters : list Z) :
  sm_pos_ok (pos m) → feed m samples = Some (m', counters) →
  spec_process (pos m) samples = Some (pos m', counters).
Proof.
  revert m counters.
  induction samples as [|s l IH]; intros m counters Hpos Hfeed.
  - by injection Hfeed as <- <-.
  - cbn [feed] in Hfeed. rewrite StateMachine_pattern_match_eq in Hfeed.
    destruct (int_add (sm_total_count m) (sm_loop 8 s (pos m) 0).2)
      as [t|]; [|done].
    cbn [mbind option_bind] in Hfeed.
    match type of Hfeed with context [feed ?m1 l] =>
      destruct (feed m1 l) as [[m2 cs]|] eqn:Hrest; [|done]
    end.
    injection Hfeed as <- <-.
    apply IH in Hrest; [|by apply sm_loop_closed].
    cbn [spec_process]. rewrite sm_call_spec by done.
    cbn [pos] in Hrest.
    destruct (sm_loop 8 s (pos m) 0) as [p1 c1].
    cbn [mbind option_bind fst snd] in *. by rewrite Hrest.
Qed.

(** C3.  From a position in {0, 1, 2}, one call of
    StateMachine::pattern_match is 8 transitions of the specification's
    automaton on the bits 7 down to 0 of the sample: it returns the
    matches they record, adds them to the running total and leaves the
    automaton's final state in [pos]; over a sequence of calls every call
    starts from the state the previous one left. *)
Theorem C3_state_machine_is_the_automaton (m : StateMachine) (sample : Z) :
  sm_pos_ok (pos m) →
  ∃ pos' counter,
    spec_process_byte (pos m) sample = Some (pos', counter)
    ∧ length (byte_bits sample) = 8%nat
    ∧ pattern_match m sample
      = (total ← int_add (total_count m) counter;
         Some ({| sm_total_count := total; pos := pos' |}, counter))
    ∧ ∀ samples m' counters,
        feed m samples = Some (m', counters) →
        spec_process (pos m) samples = Some (pos m', counters).
Proof.
  intros Hpos.
  exists (sm_loop 8 sample (pos m) 0).1, (sm_loop 8 sample (pos m) 0).2.
  split.
  { rewrite sm_call_spec by done.
    by destruct (sm_loop 8 sample (pos m) 0). }
  split; [done|]. split; [apply StateMachine_pattern_match_eq|].
  intros samples m' counters. by apply sm_feed_spec.
Qed.

Lemma C3_state_machine_witness :
  ∃ pos' counter,
    spec_process_byte 1 108 = Some (pos', counter)
    ∧ length (byte_bits 108) = 8%nat
    ∧ pattern_match {| sm_total_count := 5; pos := 1 |} 108
      = (total ← int_add 5 counter;
         Some ({| sm_total_count := total; pos := pos' |}, counter))
    ∧ ∀ samples m' counters,
        feed {| sm_total_count := 5; pos := 1 |} samples
        = Some (m', counters) →
        spec_process 1 samples = Some (pos m', counters).
Proof.
  apply (C3_state_machine_is_the_automaton
           {| sm_total_count := 5; pos := 1 |} 108).
  right. left. reflexivity.
Defined.

(** ** Dependence on the carried byte *)

(** C4.  Two SlidingBitmask instances whose carried bytes agree on their
    low 2 bits return the same count for the same sample; the count is
    that of the windows of the low 10 bits of the combined value, which
    is why masking the index with 0x3FF loses nothing. *)
Theorem C4_count_depends_on_low_two_bits (m1 m2 : SlidingBitmask)
    (sample : Z) :
  Z.land (sb_prev m1) 3 = Z.land (sb_prev m2) 3 →
  (∀ m1' c1 m2' c2,
     pattern_match m1 sample = Some (m1', c1) →
     pattern_match m2 sample = Some (m2', c2) → c1 = c2)
  ∧ (sb_total_count m1 = sb_total_count m2 →
     snd <$> pattern_match m1 sample = snd <$> pattern_match m2 sample)
  ∧ sb_loop 8 (sb_combine (sb_prev m1) sample) 0
    = sb_loop 8 (Z.land (sb_combine (sb_prev m2) sample) 1023) 0.
Proof.
  intros Hlow.
  pose proof (sb_count_low2 _ _ sample Hlow) as Hcount.
  split; [|split].
  - intros m1' c1 m2' c2 H1 H2.
    rewrite SlidingBitmask_pattern_match_eq in H1, H2.
    destruct (int_add (sb_total_count m1) _); [|done].
    destruct (int_add (sb_total_count m2) _); [|done].
    cbn [mbind option_bind] in H1, H2.
    injection H1 as _ <-. injection H2 as _ <-. done.
  - intros Htotal. rewrite !SlidingBitmask_pattern_match_eq.
    rewrite Hcount, Htotal.
    by destruct (int_add (sb_total_count m2) _).
  - rewrite Hcount. apply sb_loop_low. lia.
Qed.

Lemma C4_count_witness :
  (∀ m1' c1 m2' c2,
     pattern_match {| sb_total_count := 4; sb_prev := 7 |} 65
     = Some (m1', c1) →
     pattern_match {| sb_total_count := 9; sb_prev := 251 |} 65
     = Some (m2', c2) → c1 = c2)
  ∧ (4 = 9 →
     snd <$> pattern_match {| sb_total_count := 4; sb_prev := 7 |} 65
     = snd <$> pattern_match {| sb_total_count := 9; sb_prev := 251 |} 65)
  ∧ sb_loop 8 (sb_combine 7 65) 0
    = sb_loop 8 (Z.land (sb_combine 251 65) 1023) 0.
Proof.
  apply (C4_count_depends_on_low_two_bits
           {| sb_total_count := 4; sb_prev := 7 |}
           {| sb_total_count := 9; sb_prev := 251 |} 65).
  reflexivity.
Defined.

(** ** Matches across a byte boundary *)

Lemma land_3_bits (b : Z) :
  Z.land b 3 = 3 → Z.testbit b 0 = true ∧ Z.testbit b 1 = true.
Proof.
  intros Hb.
  assert (Z.land b 3 = Z.land 3 3) as Hlow by (by rewrite Hb).
  split; by rewrite (testbit_low2 b 3 Hlow) by lia.
Qed.

Lemma sm_loop_S (i : nat) (sample p counter : Z) :
  sm_loop (S i) sample p counter
  = sm_loop i sample
      (sm_transition p counter (sm_bit sample (Z.of_nat i))).1
      (sm_transition p counter (sm_bit sample (Z.of_nat i))).2.
Proof.
  change (sm_loop (S i) sample p counter) with
    (let '(p', c') := sm_transition p counter (sm_bit sample (Z.of_nat i)) in
     sm_loop i sample p' c').
  by destruct (sm_transition p counter (sm_bit sample (Z.of_nat i))).
Qed.

Lemma sm_loop_0 (sample p counter : Z) :
  sm_loop 0 sample p counter = (p, counter).
Proof. reflexivity. Qed.

(** A 1-bit takes every position of {0, 1, 2} at least one step up. *)
Lemma sm_transition_one (p counter bit : Z) :
  sm_pos_ok p → negb (bit =? 0) = true →
  (sm_transition p counter bit).1 = Z.min 2 (p + 1).
Proof.
  unfold sm_transition, sm_switch.
  intros [->|[->| ->]] ->; reflexivity.
Qed.

(** After a byte that ends in two 1 bits the automaton is at position 2. *)
Lemma sm_loop_ends_11 (n : nat) (b p counter : Z) :
  (n ≤ 6)%nat → sm_pos_ok p → Z.land b 3 = 3 →
  (sm_loop (S (S n)) b p counter).1 = 2.
Proof.
  intros Hn Hp Hb. destruct (land_3_bits b Hb) as [Hb0 Hb1].
  revert p counter Hp. induction n as [|n IH]; intros p counter Hp.
  - rewrite !sm_loop_S, sm_loop_0. cbn [fst].
    pose proof (sm_bit_testbit b 1 ltac:(lia)) as H1.
    pose proof (sm_bit_testbit b 0 ltac:(lia)) as H0.
    rewrite Hb1 in H1. rewrite Hb0 in H0.
    change (Z.of_nat 1) with 1. change (Z.of_nat 0) with 0.
    rewrite (sm_transition_one _ _ (sm_bit b 0));
      [| by apply sm_transition_closed | done].
    rewrite (sm_transition_one p) by done.
    destruct Hp as [->|[->| ->]]; reflexivity.
  - rewrite sm_loop_S. apply IH; [lia|]. by apply sm_transition_closed.
Qed.

(** From position 2 a byte whose bit 7 is 0 records a match at once. *)
Lemma sm_loop_from_2 (c : Z) :
  Z.testbit c 7 = false → 1 ≤ (sm_loop 8 c 2 0).2.
Proof.
  intros Hc. rewrite sm_loop_S.
  pose proof (sm_bit_testbit c 7 ltac:(lia)) as Hbit. rewrite Hc in Hbit.
  change (Z.of_nat 7) with 7.
  unfold sm_transition. rewrite Hbit.
  change (sm_switch 2) with Case_2. cbn [fst snd].
  pose proof (sm_loop_counter 7 c 0 (0 + 1)). lia.
Qed.

(** The window closed by bit 7 of the new byte reads 1,1,0. *)
Lemma sb_boundary_window (b c : Z) :
  Z.land b 3 = 3 → Z.testbit c 7 = false →
  sb_window_matches (sb_combine b c) 7 = true.
Proof.
  intros Hb Hc. destruct (land_3_bits b Hb) as [Hb0 Hb1].
  unfold sb_window_matches, pattern. apply Z.eqb_eq.
  apply Z.bits_inj'. intros k Hk. change 7 with (Z.ones 3) at 2.
  rewrite Z.land_spec, Z.shiftr_spec, sb_combine_testbit by lia.
  destruct (Z.ltb_spec k 3) as [Hlt|Hge].
  - assert (k = 0 ∨ k = 1 ∨ k = 2) as [->|[->| ->]] by lia.
    + change (0 + 7) with 7. change (7 - 8) with (-1).
      by rewrite Hc, Z.testbit_neg_r.
    + change (1 + 7 - 8) with 0. by rewrite Hb0.
    + change (2 + 7 - 8) with 1. by rewrite Hb1.
  - rewrite Z.testbit_ones_nonneg by lia.
    replace (k <? 3) with false by (symmetry; apply Z.ltb_ge; lia).
    rewrite andb_false_r. symmetry.
    apply Z.bits_above_log2; [lia|]. change (Z.log2 6) with 2. lia.
Qed.

Lemma sb_loop_first_match (x : Z) :
  sb_window_matches x 7 = true → 1 ≤ sb_loop 8 x 0.
Proof.
  intros Hx. change (sb_loop 8 x 0) with
    (sb_loop 7 x (if sb_window_matches x 7 then 0 + 1 else 0)).
  rewrite Hx. pose proof (sb_loop_counter 7 x (0 + 1)). lia.
Qed.

(** What a matcher carries after the driver loop. *)
Lemma StateMachine_feed_pos (l : list Z) (b : Z) (m m' : StateMachine)
    (cs : list Z) :
  sm_pos_ok (pos m) → Z.land b 3 = 3 →
  feed m (l ++ [b]) = Some (m', cs) → pos m' = 2.
Proof.
  intros Hpos Hb Hfeed. rewrite feed_app in Hfeed.
  destruct (feed m l) as [[m1 cs1]|] eqn:Hl; [|done].
  destruct (feed_sound (λ m, sm_pos_ok (pos m)) StateMachine_step
              _ _ _ _ Hpos Hl) as (Hpos1 & _).
  cbn [mbind option_bind feed] in Hfeed.
  rewrite StateMachine_pattern_match_eq in Hfeed.
  destruct (int_add (sm_total_count m1) _); [|done].
  cbn [mbind option_bind] in Hfeed. injection Hfeed as <- _.
  by apply (sm_loop_ends_11 6).
Qed.

Lemma SlidingBitmask_feed_prev (l : list Z) (b : Z)
    (m m' : SlidingBitmask) (cs : list Z) :
  feed m (l ++ [b]) = Some (m', cs) → sb_prev m' = b.
Proof.
  intros Hfeed. rewrite feed_app in Hfeed.
  destruct (feed m l) as [[m1 cs1]|]; [|done].
  cbn [mbind option_bind feed] in Hfeed.
  rewrite SlidingBitmask_pattern_match_eq in Hfeed.
  destruct (int_add (sb_total_count m1) _); [|done].
  cbn [mbind option_bind] in Hfeed. by injection Hfeed as <- _.
Qed.

Lemma Lut_feed_prev (l : list Z) (b : Z) (m m' : Lut) (cs : list Z) :
  lut_table_ok (count_lut m) →
  feed m (l ++ [b]) = Some (m', cs) → lut_prev m' = b.
Proof.
  intros Htable Hfeed. rewrite feed_app in Hfeed.
  destruct (feed m l) as [[m1 cs1]|] eqn:Hl; [|done].
  destruct (feed_sound (λ m, lut_table_ok (count_lut m)) Lut_step
              _ _ _ _ Htable Hl) as (Htable1 & _).
  cbn [mbind option_bind feed] in Hfeed.
  rewrite Lut_pattern_match_eq in Hfeed by done.
  destruct (int_add (lut_total_count m1) _); [|done].
  cbn [mbind option_bind] in Hfeed. by injection Hfeed as <- _.
Qed.

Lemma sm_pos_ok_new : sm_pos_ok (pos StateMachine_new).
Proof. by left. Qed.

Lemma StateMachine_boundary (m : StateMachine) (c : Z) :
  pos m = 2 → INT_MIN ≤ total_count m → Z.testbit c 7 = false →
  returns_at_least m c 1.
Proof.
  intros Hpos Hlo Hc. split.
  - intros m' k Hcall. rewrite StateMachine_pattern_match_eq in Hcall.
    destruct (int_add (sm_total_count m) _); [|done].
    cbn [mbind option_bind] in Hcall. injection Hcall as _ <-.
    rewrite Hpos. by apply sm_loop_from_2.
  - intros Hhi.
    apply (call_defined (λ m, sm_pos_ok (pos m)) StateMachine_step);
      [rewrite Hpos; by right; right | done | done].
Qed.

Lemma SlidingBitmask_boundary (m : SlidingBitmask) (c : Z) :
  Z.land (sb_prev m) 3 = 3 → INT_MIN ≤ total_count m →
  Z.testbit c 7 = false → returns_at_least m c 1.
Proof.
  intros Hprev Hlo Hc. split.
  - intros m' k Hcall. rewrite SlidingBitmask_pattern_match_eq in Hcall.
    destruct (int_add (sb_total_count m) _); [|done].
    cbn [mbind option_bind] in Hcall. injection Hcall as _ <-.
    by apply sb_loop_first_match, sb_boundary_window.
  - intros Hhi.
    by apply (call_defined (λ _, True) SlidingBitmask_step).
Qed.

Lemma Lut_boundary (m : Lut) (c : Z) :
  lut_table_ok (count_lut m) →
  Z.land (lut_prev m) 3 = 3 → INT_MIN ≤ total_count m →
  Z.testbit c 7 = false → returns_at_least m c 1.
Proof.
  intros Htable Hprev Hlo Hc. split.
  - intros m' k Hcall. rewrite Lut_pattern_match_eq in Hcall by done.
    destruct (int_add (lut_total_count m) _); [|done].
    cbn [mbind option_bind] in Hcall. injection Hcall as _ <-.
    by apply sb_loop_first_match, sb_boundary_window.
  - intros Hhi.
    by apply (call_defined (λ m, lut_table_ok (count_lut m)) Lut_step).
Qed.

(** The driver loop over a sequence and one more byte, when defined, is
    the loop over the sequence followed by the call for that byte. *)
Lemma feed_snoc_Some {M} `{Method M} (l : list Z) (c : Z) (m0 : M) :
  is_Some (feed m0 (l ++ [c])) →
  ∃ m cs m' k, feed m0 l = Some (m, cs) ∧ pattern_match m c = Some (m', k).
Proof.
  rewrite feed_app. intros [r Hr].
  destruct (feed m0 l) as [[m cs]|]; [|done].
  cbn [mbind option_bind feed] in Hr.
  destruct (pattern_match m c) as [[m' k]|] eqn:Hcall; [|done].
  by exists m, cs, m', k.
Qed.

(** C5.  When the byte processed last ends in two 1 bits and the next
    byte has bit 7 clear, the window closed by bit 7 of the next byte
    reads 1,1,0, and the call for the next byte returns at least 1 in
    each of the three matchers, in every state a fresh instance reaches.
    Such states exist: unless the sequence is so long that the running
    total may overflow, the run over the bytes is defined, and so is the
    call for the next byte, which returns a count of at least 1. *)
Theorem C5_match_across_byte_boundary (l : list Z) (b c : Z) :
  Z.land b 3 = 3 → Z.testbit c 7 = false →
  sb_window_matches (sb_combine b c) 7 = true
  ∧ (∀ m cs, feed StateMachine_new (l ++ [b]) = Some (m, cs) →
       returns_at_least m c 1)
  ∧ (∀ m cs, feed SlidingBitmask_new (l ++ [b]) = Some (m, cs) →
       returns_at_least m c 1)
  ∧ (∃ lut, Lut_new = Some lut
       ∧ (∀ m cs, feed lut (l ++ [b]) = Some (m, cs) →
            returns_at_least m c 1)
       ∧ (8 * Z.of_nat (length l) + 16 ≤ INT_MAX →
          (∃ m cs m' k,
             feed StateMachine_new (l ++ [b]) = Some (m, cs)
             ∧ pattern_match m c = Some (m', k) ∧ 1 ≤ k)
          ∧ (∃ m cs m' k,
               feed SlidingBitmask_new (l ++ [b]) = Some (m, cs)
               ∧ pattern_match m c = Some (m', k) ∧ 1 ≤ k)
          ∧ (∃ m cs m' k,
               feed lut (l ++ [b]) = Some (m, cs)
               ∧ pattern_match m c = Some (m', k) ∧ 1 ≤ k))).
Proof.
  intros Hb Hc.
  destruct Lut_new_ok as (table & Hnew & Htable).
  set (lut := {| lut_total_count := 0; lut_prev := 0;
                 count_lut := table |}) in *.
  assert (∀ m cs, feed StateMachine_new (l ++ [b]) = Some (m, cs) →
            returns_at_least m c 1) as Hsm.
  { intros m cs Hfeed.
    destruct (feed_sound (λ m, sm_pos_ok (pos m)) StateMachine_step
                _ _ _ _ sm_pos_ok_new Hfeed) as (_ & _ & _ & Htotal).
    change (total_count StateMachine_new) with 0 in Htotal.
    apply StateMachine_boundary; [|unfold INT_MIN; lia | done].
    by apply (StateMachine_feed_pos l b StateMachine_new m cs);
      [left | |]. }
  assert (∀ m cs, feed SlidingBitmask_new (l ++ [b]) = Some (m, cs) →
            returns_at_least m c 1) as Hsb.
  { intros m cs Hfeed.
    destruct (feed_sound (λ _, True) SlidingBitmask_step
                _ _ _ _ I Hfeed) as (_ & _ & _ & Htotal).
    change (total_count SlidingBitmask_new) with 0 in Htotal.
    apply SlidingBitmask_boundary; [|unfold INT_MIN; lia | done].
    by rewrite (SlidingBitmask_feed_prev _ _ _ _ _ Hfeed). }
  assert (∀ m cs, feed lut (l ++ [b]) = Some (m, cs) →
            returns_at_least m c 1) as Hlut.
  { intros m cs Hfeed.
    destruct (feed_sound (λ m, lut_table_ok (count_lut m)) Lut_step
                (l ++ [b]) lut m cs Htable Hfeed)
      as (Htable' & _ & _ & Htotal).
    change (total_count lut) with 0 in Htotal.
    apply Lut_boundary; [done | | unfold INT_MIN; lia | done].
    by rewrite (Lut_feed_prev l b lut m cs Htable Hfeed). }
  split; [by apply sb_boundary_window|].
  split; [exact Hsm|]. split; [exact Hsb|].
  exists lut. split; [exact Hnew|]. split; [exact Hlut|].
  intros Hlen.
  assert (8 * Z.of_nat (length ((l ++ [b]) ++ [c])) ≤ INT_MAX) as Hlen'.
  { rewrite !length_app. cbn [length]. lia. }
  split; [|split].
  - destruct (feed_snoc_Some (l ++ [b]) c StateMachine_new)
      as (m & cs & m' & k & Hfeed & Hcall).
    { by apply (feed_defined (λ m, sm_pos_ok (pos m)) StateMachine_step);
        [apply sm_pos_ok_new | |]. }
    exists m, cs, m', k. split; [done|]. split; [done|].
    exact (proj1 (Hsm m cs Hfeed) m' k Hcall).
  - destruct (feed_snoc_Some (l ++ [b]) c SlidingBitmask_new)
      as (m & cs & m' & k & Hfeed & Hcall).
    { by apply (feed_defined (λ _, True) SlidingBitmask_step). }
    exists m, cs, m', k. split; [done|]. split; [done|].
    exact (proj1 (Hsb m cs Hfeed) m' k Hcall).
  - destruct (feed_snoc_Some (l ++ [b]) c lut)
      as (m & cs & m' & k & Hfeed & Hcall).
    { by apply (feed_defined (λ m, lut_table_ok (count_lut m)) Lut_step). }
    exists m, cs, m', k. split; [done|]. split; [done|].
    exact (proj1 (Hlut m cs Hfeed) m' k Hcall).
Qed.

Lemma C5_match_across_witness :
  sb_window_matches (sb_combine 179 90) 7 = true
  ∧ returns_at_least {| sm_total_count := 2; pos := 2 |} 90 1
  ∧ returns_at_least {| sb_total_count := 2; sb_prev := 179 |} 90 1
  ∧ (∃ lut, Lut_new = Some lut
       ∧ (∀ m cs, feed lut ([17; 200] ++ [179]) = Some (m, cs) →
            returns_at_least m 90 1)
       ∧ (∃ m cs m' k,
            feed StateMachine_new ([17; 200] ++ [179]) = Some (m, cs)
            ∧ pattern_match m 90 = Some (m', k) ∧ 1 ≤ k)
       ∧ (∃ m cs m' k,
            feed SlidingBitmask_new ([17; 200] ++ [179]) = Some (m, cs)
            ∧ pattern_match m 90 = Some (m', k) ∧ 1 ≤ k)
       ∧ (∃ m cs m' k,
            feed lut ([17; 200] ++ [179]) = Some (m, cs)
            ∧ pattern_match m 90 = Some (m', k) ∧ 1 ≤ k)).
Proof.
  destruct (C5_match_across_byte_boundary [17; 200] 179 90
              eq_refl eq_refl)
    as (Hwindow & Hsm & Hsb & lut & Hnew & Hlut & Hdefined).
  split; [exact Hwindow|].
  split; [apply (Hsm _ [0; 1; 1]); reflexivity|].
  split; [apply (Hsb _ [0; 1; 1]); reflexivity|].
  exists lut. split; [exact Hnew|]. split; [exact Hlut|].
  apply Hdefined. vm_compute. discriminate.
Defined.

(** The call of the witness run, evaluated: after the bytes 17, 200, 179
    the byte 90 makes the state machine and the sliding bitmask return
    2. *)
Example boundary_run :
  feed StateMachine_new [17; 200; 179; 90]
  = Some ({| sm_total_count := 4; pos := 0 |}, [0; 1; 1; 2])
  ∧ feed SlidingBitmask_new [17; 200; 179; 90]
    = Some ({| sb_total_count := 4; sb_prev := 90 |}, [0; 1; 1; 2]).
Proof. split; reflexivity. Qed.

(** ** Worked example and all-ones stream *)

(** C6.  The byte 0xC0 as the first byte after construction: each of the
    three matchers returns 1 and has running total 1 afterwards. *)
Theorem C6_first_byte_0xC0 :
  pattern_match StateMachine_new 192
  = Some ({| sm_total_count := 1; pos := 0 |}, 1)
  ∧ pattern_match SlidingBitmask_new 192
    = Some ({| sb_total_count := 1; sb_prev := 192 |}, 1)
  ∧ ∃ lut, Lut_new = Some lut
      ∧ pattern_match lut 192
        = Some ({| lut_total_count := 1; lut_prev := 192;
                   count_lut := count_lut lut |}, 1).
Proof.
  split; [reflexivity|]. split; [reflexivity|].
  destruct Lut_new_ok as (table & Hnew & Htable).
  eexists. split; [exact Hnew|].
  by rewrite Lut_pattern_match_eq.
Qed.

Lemma sm_all_ones (p : Z) : sm_pos_ok p → sm_loop 8 255 p 0 = (2, 0).
Proof. by intros [->|[->| ->]]. Qed.

Lemma sb_all_ones (prev : Z) :
  prev = 0 ∨ prev = 255 → sb_loop 8 (sb_combine prev 255) 0 = 0.
Proof. by intros [->| ->]. Qed.

Lemma StateMachine_feed_all_ones (n : nat) (m : StateMachine) :
  sm_pos_ok (pos m) → sm_total_count m = 0 →
  ∃ m', feed m (replicate n 255) = Some (m', replicate n 0)
        ∧ total_count m' = 0.
Proof.
  revert m. induction n as [|n IH]; intros m Hpos Htotal.
  - by exists m.
  - destruct (IH {| sm_total_count := 0; pos := 2 |}) as (m' & Hrest & Hm');
      [by right; right | done |].
    exists m'. split; [|done]. cbn [replicate feed].
    rewrite StateMachine_pattern_match_eq, sm_all_ones, Htotal by done.
    cbn [fst snd]. change (int_add 0 0) with (Some 0).
    cbn [mbind option_bind]. by rewrite Hrest.
Qed.

Lemma SlidingBitmask_feed_all_ones (n : nat) (m : SlidingBitmask) :
  sb_prev m = 0 ∨ sb_prev m = 255 → sb_total_count m = 0 →
  ∃ m', feed m (replicate n 255) = Some (m', replicate n 0)
        ∧ total_count m' = 0.
Proof.
  revert m. induction n as [|n IH]; intros m Hprev Htotal.
  - by exists m.
  - destruct (IH {| sb_total_count := 0; sb_prev := 255 |})
      as (m' & Hrest & Hm'); [by right | done |].
    exists m'. split; [|done]. cbn [replicate feed].
    rewrite SlidingBitmask_pattern_match_eq, sb_all_ones, Htotal by done.
    change (int_add 0 0) with (Some 0).
    cbn [mbind option_bind]. by rewrite Hrest.
Qed.

Lemma Lut_feed_all_ones (n : nat) (m : Lut) :
  lut_table_ok (count_lut m) →
  lut_prev m = 0 ∨ lut_prev m = 255 → lut_total_count m = 0 →
  ∃ m', feed m (replicate n 255) = Some (m', replicate n 0)
        ∧ total_count m' = 0.
Proof.
  revert m. induction n as [|n IH]; intros m Htable Hprev Htotal.
  - by exists m.
  - destruct (IH {| lut_total_count := 0; lut_prev := 255;
                    count_lut := count_lut m |})
      as (m' & Hrest & Hm'); [done | by right | done |].
    exists m'. split; [|done]. cbn [replicate feed].
    rewrite Lut_pattern_match_eq, sb_all_ones, Htotal by done.
    change (int_add 0 0) with (Some 0).
    cbn [mbind option_bind]. by rewrite Hrest.
Qed.

(** C7.  Fed n bytes 0xFF, a fresh instance of each of the three matchers
    returns 0 from every call and ends with running total 0. *)
Theorem C7_all_ones_stream (n : nat) :
  (∃ m, feed StateMachine_new (replicate n 255) = Some (m, replicate n 0)
        ∧ total_count m = 0)
  ∧ (∃ m, feed SlidingBitmask_new (replicate n 255)
          = Some (m, replicate n 0)
          ∧ total_count m = 0)
  ∧ (∃ lut m, Lut_new = Some lut
        ∧ feed lut (replicate n 255) = Some (m, replicate n 0)
        ∧ total_count m = 0).
Proof.
  split; [|split].
  - by apply StateMachine_feed_all_ones; [left|].
  - by apply SlidingBitmask_feed_all_ones; [left|].
  - destruct Lut_new_ok as (table & Hnew & Htable).
    destruct (Lut_feed_all_ones n
      {| lut_total_count := 0; lut_prev := 0; count_lut := table |})
      as (m & Hfeed & Hm); [done | by left | done |].
    exists {| lut_total_count := 0; lut_prev := 0; count_lut := table |}, m.
    split; [exact Hnew|]. split; [exact Hfeed | exact Hm].
Qed.

(** ** Running totals *)

(** From an instance with total 0, the total after a run of the driver
    loop is non-negative, every later call returns a non-negative count
    and the total does not decrease. *)
Lemma totals_monotone {M} `{Method M} (Inv : M → Prop) (m0 m1 m2 : M)
    (l1 l2 cs1 cs2 : list Z) :
  (∀ m s, Inv m →
     ∃ m' c, 0 ≤ c ≤ 8 ∧ Inv m' ∧ total_count m' = total_count m + c
       ∧ pattern_match m s = (_ ← int_add (total_count m) c; Some (m', c))) →
  Inv m0 → total_count m0 = 0 →
  feed m0 l1 = Some (m1, cs1) → feed m1 l2 = Some (m2, cs2) →
  Forall (λ c, 0 ≤ c) cs2 ∧ 0 ≤ total_count m1 ≤ total_count m2.
Proof.
  intros step Hinv0 Htotal0 Hfeed1 Hfeed2.
  destruct (feed_sound Inv step _ _ _ _ Hinv0 Hfeed1)
    as (Hinv1 & _ & _ & Htotal1).
  destruct (feed_sound Inv step _ _ _ _ Hinv1 Hfeed2)
    as (_ & _ & Hcs2 & Htotal2).
  split; [|lia].
  eapply Forall_impl; [exact Hcs2|]. intros c Hc. simpl in Hc. lia.
Qed.

(** A fresh instance of each matcher can be fed INT_MAX / 8 bytes without
    its running total overflowing. *)
Lemma feed_new_defined (l : list Z) :
  8 * Z.of_nat (length l) ≤ INT_MAX →
  is_Some (feed StateMachine_new l)
  ∧ is_Some (feed SlidingBitmask_new l)
  ∧ ∃ lut, Lut_new = Some lut ∧ is_Some (feed lut l).
Proof.
  intros Hlen. split; [|split].
  - by apply (feed_defined (λ m, sm_pos_ok (pos m)) StateMachine_step);
      [apply sm_pos_ok_new | |].
  - by apply (feed_defined (λ _, True) SlidingBitmask_step).
  - destruct Lut_new_ok as (table & Hnew & Htable).
    eexists. split; [exact Hnew|].
    by apply (feed_defined (λ m, lut_table_ok (count_lut m)) Lut_step).
Qed.

(** C8.  The running total of each of the three matchers starts at 0;
    in every state a fresh instance reaches, further calls return
    non-negative counts and leave a total at least as large. *)
Theorem C8_totals_never_decrease (l1 l2 : list Z) :
  (total_count StateMachine_new = 0
   ∧ ∀ m1 cs1 m2 cs2,
       feed StateMachine_new l1 = Some (m1, cs1) →
       feed m1 l2 = Some (m2, cs2) →
       Forall (λ c, 0 ≤ c) cs2 ∧ 0 ≤ total_count m1 ≤ total_count m2)
  ∧ (total_count SlidingBitmask_new = 0
     ∧ ∀ m1 cs1 m2 cs2,
         feed SlidingBitmask_new l1 = Some (m1, cs1) →
         feed m1 l2 = Some (m2, cs2) →
         Forall (λ c, 0 ≤ c) cs2 ∧ 0 ≤ total_count m1 ≤ total_count m2)
  ∧ (∃ lut, Lut_new = Some lut ∧ total_count lut = 0
     ∧ ∀ m1 cs1 m2 cs2,
         feed lut l1 = Some (m1, cs1) →
         feed m1 l2 = Some (m2, cs2) →
         Forall (λ c, 0 ≤ c) cs2 ∧ 0 ≤ total_count m1 ≤ total_count m2).
Proof.
  split; [|split].
  - split; [done|]. intros m1 cs1 m2 cs2.
    by apply (totals_monotone (λ m, sm_pos_ok (pos m)) StateMachine_new
                m1 m2 l1 l2 cs1 cs2 StateMachine_step sm_pos_ok_new).
  - split; [done|]. intros m1 cs1 m2 cs2.
    by apply (totals_monotone (λ _, True) SlidingBitmask_new
                m1 m2 l1 l2 cs1 cs2 SlidingBitmask_step I).
  - destruct Lut_new_ok as (table & Hnew & Htable).
    eexists. split; [exact Hnew|]. split; [done|].
    intros m1 cs1 m2 cs2.
    by apply (totals_monotone (λ m, lut_table_ok (count_lut m))
                {| lut_total_count := 0; lut_prev := 0; count_lut := table |}
                m1 m2 l1 l2 cs1 cs2 Lut_step Htable).
Qed.

Lemma C8_totals_never_decrease_witness :
  (Forall (λ c, 0 ≤ c) [2; 0]
   ∧ 0 ≤ total_count {| sm_total_count := 2; pos := 2 |}
       ≤ total_count {| sm_total_count := 4; pos := 2 |})
  ∧ (Forall (λ c, 0 ≤ c) [2; 0]
     ∧ 0 ≤ total_count {| sb_total_count := 2; sb_prev := 27 |}
         ≤ total_count {| sb_total_count := 4; sb_prev := 255 |})
  ∧ (∃ lut m1 cs1 m2 cs2,
       Lut_new = Some lut
       ∧ feed lut [192; 27] = Some (m1, cs1)
       ∧ feed m1 [96; 255] = Some (m2, cs2)
       ∧ Forall (λ c, 0 ≤ c) cs2
       ∧ 0 ≤ total_count m1 ≤ total_count m2).
Proof.
  destruct (C8_totals_never_decrease [192; 27] [96; 255])
    as ((_ & Hsm) & (_ & Hsb) & (lut & Hnew & Hzero & Hlut)).
  split; [|split].
  - apply (Hsm _ [1; 1] _ [2; 0]); reflexivity.
  - apply (Hsb _ [1; 1] _ [2; 0]); reflexivity.
  - destruct Lut_new_ok as (table & Hnew' & Htable).
    rewrite Hnew' in Hnew. injection Hnew as <-.
    destruct (feed_defined (λ m, lut_table_ok (count_lut m)) Lut_step
                [192; 27]
                {| lut_total_count := 0; lut_prev := 0; count_lut := table |}
                Htable) as [[m1 cs1] Hfeed1];
      [vm_compute; discriminate | vm_compute; discriminate |].
    destruct (feed_sound (λ m, lut_table_ok (count_lut m)) Lut_step
                [192; 27]
                {| lut_total_count := 0; lut_prev := 0; count_lut := table |}
                m1 cs1 Htable Hfeed1) as (Htable1 & _ & _ & Htotal1).
    cbn [total_count Lut_Method lut_total_count length] in Htotal1.
    destruct (feed_defined (λ m, lut_table_ok (count_lut m)) Lut_step
                [96; 255] m1 Htable1) as [[m2 cs2] Hfeed2];
      [cbn [total_count Lut_Method]; unfold INT_MIN; lia
      | cbn [total_count Lut_Method length]; unfold INT_MAX; lia |].
    exists {| lut_total_count := 0; lut_prev := 0; count_lut := table |},
      m1, cs1, m2, cs2.
    split; [exact Hnew'|]. split; [exact Hfeed1|]. split; [exact Hfeed2|].
    exact (Hlut m1 cs1 m2 cs2 Hfeed1 Hfeed2).
Defined.

Lemma StateMachine_call_total (m m' : StateMachine) (s c : Z) :
  pattern_match m s = Some (m', c) →
  total_count m' = total_count m + c.
Proof.
  rewrite StateMachine_pattern_match_eq. intros Hcall.
  destruct (int_add (sm_total_count m) _) as [t|] eqn:Hadd; [|done].
  cbn [mbind option_bind] in Hcall. injection Hcall as <- <-.
  by apply int_add_Some in Hadd as [-> _].
Qed.

Lemma SlidingBitmask_call_total (m m' : SlidingBitmask) (s c : Z) :
  pattern_match m s = Some (m', c) →
  total_count m' = total_count m + c.
Proof.
  rewrite SlidingBitmask_pattern_match_eq. intros Hcall.
  destruct (int_add (sb_total_count m) _) as [t|] eqn:Hadd; [|done].
  cbn [mbind option_bind] in Hcall. injection Hcall as <- <-.
  by apply int_add_Some in Hadd as [-> _].
Qed.

(** For a Lut this holds whatever its table contains. *)
Lemma Lut_call_total (m m' : Lut) (s c : Z) :
  pattern_match m s = Some (m', c) →
  total_count m' = total_count m + c.
Proof.
  change (pattern_match m s) with (Lut_pattern_match m s).
  unfold Lut_pattern_match. intros Hcall.
  destruct (array_get (count_lut m) _) as [counter|]; [|done].
  cbn [mbind option_bind] in Hcall.
  destruct (int_add (lut_total_count m) counter) as [t|] eqn:Hadd; [|done].
  cbn [mbind option_bind] in Hcall. injection Hcall as <- <-.
  by apply int_add_Some in Hadd as [-> _].
Qed.

(** C9.  For each of the three matchers and every call, the running total
    after the call is the running total before it plus the returned
    count. *)
Theorem C9_call_adds_returned_count
    (a a' : StateMachine) (b b' : SlidingBitmask) (c c' : Lut)
    (s ka kb kc : Z) :
  (pattern_match a s = Some (a', ka) →
   total_count a' = total_count a + ka)
  ∧ (pattern_match b s = Some (b', kb) →
     total_count b' = total_count b + kb)
  ∧ (pattern_match c s = Some (c', kc) →
     total_count c' = total_count c + kc).
Proof.
  split; [apply StateMachine_call_total|].
  split; [apply SlidingBitmask_call_total | apply Lut_call_total].
Qed.

Lemma C9_call_adds_witness :
  total_count {| sm_total_count := 9; pos := 1 |}
  = total_count {| sm_total_count := 7; pos := 2 |} + 2
  ∧ total_count {| sb_total_count := 9; sb_prev := 77 |}
    = total_count {| sb_total_count := 7; sb_prev := 3 |} + 2
  ∧ ∃ lut m k, Lut_new = Some lut
      ∧ pattern_match lut 77 = Some (m, k)
      ∧ total_count m = total_count lut + k.
Proof.
  destruct Lut_new_ok as (table & Hnew & Htable).
  destruct (call_defined (λ m, lut_table_ok (count_lut m)) Lut_step
              {| lut_total_count := 0; lut_prev := 0; count_lut := table |}
              77 Htable) as [[m k] Hcall];
    [vm_compute; discriminate | vm_compute; discriminate |].
  destruct (C9_call_adds_returned_count
              {| sm_total_count := 7; pos := 2 |}
              {| sm_total_count := 9; pos := 1 |}
              {| sb_total_count := 7; sb_prev := 3 |}
              {| sb_total_count := 9; sb_prev := 77 |}
              {| lut_total_count := 0; lut_prev := 0; count_lut := table |}
              m 77 2 2 k) as (Hsm & Hsb & Hlut).
  split; [apply Hsm; reflexivity|].
  split; [apply Hsb; reflexivity|].
  exists {| lut_total_count := 0; lut_prev := 0; count_lut := table |}, m, k.
  split; [exact Hnew|]. split; [exact Hcall | exact (Hlut Hcall)].
Defined.

(** ** The positions of the automaton *)

(** C10.  [pos] is 0 at construction, every transition maps {0, 1, 2}
    into {0, 1, 2}, and in every state a fresh StateMachine reaches [pos]
    is 0, 1 or 2; so in any further call [switch (pos)] is evaluated on
    these values only and never takes its default branch. *)
Theorem C10_pos_stays_in_0_1_2 (samples : list Z) (m : StateMachine)
    (counters : list Z) :
  feed StateMachine_new samples = Some (m, counters) →
  pos StateMachine_new = 0
  ∧ (∀ p counter bit,
       sm_pos_ok p → sm_pos_ok (sm_transition p counter bit).1)
  ∧ sm_pos_ok (pos m)
  ∧ ∀ sample,
      Forall (λ p, sm_pos_ok p ∧ sm_switch p ≠ Case_default)
        (sm_switch_trace 8 sample (pos m)).
Proof.
  intros Hfeed. split; [done|]. split; [apply sm_transition_closed|].
  destruct (feed_sound (λ m, sm_pos_ok (pos m)) StateMachine_step
              _ _ _ _ sm_pos_ok_new Hfeed) as (Hpos & _).
  split; [done|]. intros sample.
  eapply Forall_impl; [by apply sm_switch_trace_ok|].
  intros p Hp. split; [done | by apply sm_switch_ok].
Qed.

Lemma C10_pos_stays_witness :
  pos StateMachine_new = 0
  ∧ (∀ p counter bit,
       sm_pos_ok p → sm_pos_ok (sm_transition p counter bit).1)
  ∧ sm_pos_ok (pos {| sm_total_count := 8; pos := 0 |})
  ∧ ∀ sample,
      Forall (λ p, sm_pos_ok p ∧ sm_switch p ≠ Case_default)
        (sm_switch_trace 8 sample (pos {| sm_total_count := 8; pos := 0 |})).
Proof.
  apply (C10_pos_stays_in_0_1_2 [219; 109; 182]
           {| sm_total_count := 8; pos := 0 |} [2; 3; 3]).
  reflexivity.
Defined.

(** * Further properties of the code *)

(** ** The window test, bit by bit *)

(** The low 3 bits of [x] as a number. *)
Lemma land_7_bits (x : Z) (b0 b1 b2 : bool) :
  Z.testbit x 0 = b0 → Z.testbit x 1 = b1 → Z.testbit x 2 = b2 →
  Z.land x 7 = Z.b2z b0 + 2 * Z.b2z b1 + 4 * Z.b2z b2.
Proof.
  intros H0 H1 H2. apply Z.bits_inj'. intros k Hk.
  rewrite Z.land_spec.
  destruct (Z.ltb_spec k 3) as [Hlt|Hge].
  - assert (k = 0 ∨ k = 1 ∨ k = 2) as [->|[->| ->]] by lia;
      rewrite ?H0, ?H1, ?H2; by destruct b0, b1, b2.
  - change 7 with (Z.ones 3). rewrite Z.testbit_ones_nonneg by lia.
    replace (k <? 3) with false by (symmetry; apply Z.ltb_ge; lia).
    rewrite andb_false_r. symmetry. apply Z.bits_above_log2.
    + destruct b0, b1, b2; simpl; lia.
    + assert (Z.log2 (Z.b2z b0 + 2 * Z.b2z b1 + 4 * Z.b2z b2) < 3);
        [|lia].
      by destruct b0, b1, b2.
Qed.

(** [((combined_samples >> i) & 0x07) == pattern] holds exactly when the
    bits [i + 2], [i + 1], [i] of the combined value read 1,1,0. *)
Lemma sb_window_matches_bits (c i : Z) :
  0 ≤ i → sb_window_matches c i = spec_window_is_110 c i.
Proof.
  intros Hi. unfold sb_window_matches, spec_window_is_110, pattern.
  rewrite (land_7_bits (Z.shiftr c i) (Z.testbit c i)
             (Z.testbit c (i + 1)) (Z.testbit c (i + 2))).
  - by destruct (Z.testbit c i), (Z.testbit c (i + 1)),
      (Z.testbit c (i + 2)).
  - by rewrite Z.shiftr_spec by lia.
  - rewrite Z.shiftr_spec by lia. f_equal. lia.
  - rewrite Z.shiftr_spec by lia. f_equal. lia.
Qed.

Lemma sb_loop_filter (n : nat) (c counter : Z) :
  sb_loop n c counter
  = counter
    + Z.of_nat (length (List.filter (spec_window_is_110 c) (down_from n))).
Proof.
  revert counter. induction n as [|n IH]; intros counter.
  - change (sb_loop 0 c counter) with counter. simpl. lia.
  - change (sb_loop (S n) c counter) with
      (sb_loop n c (if sb_window_matches c (Z.of_nat n)
                    then counter + 1 else counter)).
    rewrite IH, sb_window_matches_bits by lia.
    cbn [down_from List.filter].
    destruct (spec_window_is_110 c (Z.of_nat n)); cbn [length]; lia.
Qed.

Lemma sb_loop_windows (c : Z) : sb_loop 8 c 0 = spec_window_count c.
Proof. by rewrite sb_loop_filter. Qed.

(** X1.  The count a SlidingBitmask call returns is the number of offsets
    i = 0..7 at which the bits i+2, i+1, i of the combined value
    (prev << 8 | sample) read 1,1,0. *)
Theorem X1_sliding_count_is_window_count (m m' : SlidingBitmask)
    (sample k : Z) :
  pattern_match m sample = Some (m', k) →
  k = spec_window_count (sb_combine (sb_prev m) sample)
  ∧ sb_prev m' = sample.
Proof.
  rewrite SlidingBitmask_pattern_match_eq. intros Hcall.
  destruct (int_add (sb_total_count m) _); [|done].
  cbn [mbind option_bind] in Hcall. injection Hcall as <- <-.
  split; [apply sb_loop_windows | done].
Qed.

Lemma X1_sliding_count_witness :
  2 = spec_window_count (sb_combine 3 77)
  ∧ sb_prev {| sb_total_count := 9; sb_prev := 77 |} = 77.
Proof.
  apply (X1_sliding_count_is_window_count
           {| sb_total_count := 7; sb_prev := 3 |}
           {| sb_total_count := 9; sb_prev := 77 |} 77 2).
  reflexivity.
Defined.

(** ** Bounds on the counts *)

(** Checked on all 1024 values of the low 10 bits. *)
Lemma sb_count_below :
  all_below 1024 (λ j, sb_loop 8 j 0 <=? 3) = true.
Proof. vm_compute. reflexivity. Qed.

(** Among 8 consecutive windows at most 3 read 1,1,0. *)
Lemma sb_count_le_3 (c : Z) : 0 ≤ sb_loop 8 c 0 ≤ 3.
Proof.
  pose proof (sb_loop_counter 8 c 0) as Hlo. split; [lia|].
  rewrite sb_loop_low by lia. apply Z.leb_le.
  apply (all_below_spec _ _ sb_count_below), land_1023_range.
Qed.

Lemma SlidingBitmask_feed_le_3 (l : list Z) (m m' : SlidingBitmask)
    (cs : list Z) :
  feed m l = Some (m', cs) →
  Forall (λ k, 0 ≤ k ≤ 3) cs
  ∧ total_count m' ≤ total_count m + 3 * Z.of_nat (length l).
Proof.
  revert m cs. induction l as [|s l IH]; intros m cs Hfeed.
  - injection Hfeed as <- <-. split; [done | simpl; lia].
  - cbn [feed] in Hfeed. rewrite SlidingBitmask_pattern_match_eq in Hfeed.
    destruct (int_add (sb_total_count m) _) as [t|] eqn:Hadd; [|done].
    apply int_add_Some in Hadd as [-> _].
    cbn [mbind option_bind] in Hfeed.
    match type of Hfeed with context [feed ?m1 l] =>
      destruct (feed m1 l) as [[m2 cs2]|] eqn:Hrest; [|done]
    end.
    injection Hfeed as <- <-. apply IH in Hrest as [Hcs Htotal].
    pose proof (sb_count_le_3 (sb_combine (sb_prev m) s)) as Hc.
    split; [by constructor|].
    cbn [total_count SlidingBitmask_Method sb_total_count] in *.
    simpl length. lia.
Qed.

Lemma SlidingBitmask_feed_defined_3 (l : list Z) (m : SlidingBitmask) :
  INT_MIN ≤ total_count m →
  total_count m + 3 * Z.of_nat (length l) ≤ INT_MAX →
  is_Some (feed m l).
Proof.
  revert m. induction l as [|s l IH]; intros m Hlo Hhi; [by eexists|].
  simpl length in Hhi. cbn [feed].
  rewrite SlidingBitmask_pattern_match_eq.
  pose proof (sb_count_le_3 (sb_combine (sb_prev m) s)) as Hc.
  cbn [total_count SlidingBitmask_Method] in Hlo, Hhi.
  rewrite int_add_in_range by lia. cbn [mbind option_bind].
  match goal with |- context [feed ?m1 l] =>
    destruct (IH m1) as [[m2 cs] Hrest];
      [cbn [total_count SlidingBitmask_Method sb_total_count]; lia
      |cbn [total_count SlidingBitmask_Method sb_total_count]; lia|]
  end.
  rewrite Hrest. by eexists.
Qed.

(** What related instances share after the driver loop. *)
Lemma feed_sim_Some {A B} `{Method A} `{Method B} (R : A → B → Prop)
    (l : list Z) (a : A) (b b' : B) (cs : list Z) :
  same_result R (feed a l) (feed b l) → feed b l = Some (b', cs) →
  ∃ a', feed a l = Some (a', cs) ∧ R a' b'.
Proof.
  intros Hsim Hb. rewrite Hb in Hsim.
  destruct (feed a l) as [[a' ds]|]; [|done].
  destruct Hsim as [-> HR]. by exists a'.
Qed.

Lemma feed_sim_Some_l {A B} `{Method A} `{Method B} (R : A → B → Prop)
    (l : list Z) (a a' : A) (b : B) (cs : list Z) :
  same_result R (feed a l) (feed b l) → feed a l = Some (a', cs) →
  ∃ b', feed b l = Some (b', cs) ∧ R a' b'.
Proof.
  intros Hsim Ha. rewrite Ha in Hsim.
  destruct (feed b l) as [[b' ds]|]; [|done].
  destruct Hsim as [<- HR]. by exists b'.
Qed.

(** X2.  Fed bytes, a fresh instance of each matcher returns a count
    between 0 and 3 from every call, so its running total is at most 3
    times the number of bytes; up to INT_MAX / 3 bytes can be fed without
    the total overflowing. *)
Theorem X2_counts_between_0_and_3 (l : list Z) :
  Forall is_uchar l →
  (∀ m cs, feed StateMachine_new l = Some (m, cs) →
     Forall (λ k, 0 ≤ k ≤ 3) cs
     ∧ total_count m ≤ 3 * Z.of_nat (length l))
  ∧ (∀ m cs, feed SlidingBitmask_new l = Some (m, cs) →
       Forall (λ k, 0 ≤ k ≤ 3) cs
       ∧ total_count m ≤ 3 * Z.of_nat (length l))
  ∧ (∃ lut, Lut_new = Some lut ∧
       (∀ m cs, feed lut l = Some (m, cs) →
          Forall (λ k, 0 ≤ k ≤ 3) cs
          ∧ total_count m ≤ 3 * Z.of_nat (length l))
       ∧ (3 * Z.of_nat (length l) ≤ INT_MAX →
          is_Some (feed StateMachine_new l)
          ∧ is_Some (feed SlidingBitmask_new l)
          ∧ is_Some (feed lut l))).
Proof.
  intros Hl.
  destruct Lut_new_ok as (table & Hnew & Htable).
  pose proof (feed_sim sm_sb_rel sm_sb_rel_step l _ _ Hl sm_sb_rel_new)
    as Hsm.
  pose proof (feed_sim sb_lut_rel sb_lut_rel_step l _ _ Hl
                (sb_lut_rel_new table Htable)) as Hlut.
  split; [|split].
  - intros m cs Hfeed.
    destruct (feed_sim_Some_l _ _ _ _ _ _ Hsm Hfeed)
      as (b' & Hb & [Htotal _]).
    apply SlidingBitmask_feed_le_3 in Hb as [Hcs Hb].
    split; [done|].
    change (total_count m) with (sm_total_count m). rewrite Htotal.
    exact Hb.
  - intros m cs Hfeed. by apply SlidingBitmask_feed_le_3 in Hfeed.
  - eexists. split; [exact Hnew|]. split.
    + intros m cs Hfeed.
      destruct (feed_sim_Some _ _ _ _ _ _ Hlut Hfeed)
        as (b' & Hb & (Htotal & _)).
      apply SlidingBitmask_feed_le_3 in Hb as [Hcs Hb].
      split; [done|].
      change (total_count m) with (lut_total_count m). rewrite <- Htotal.
      exact Hb.
    + intros Hlen.
      destruct (SlidingBitmask_feed_defined_3 l SlidingBitmask_new)
        as [[b' cs] Hb]; [done | done |].
      destruct (feed_sim_Some _ _ _ _ _ _ Hsm Hb) as (a' & Ha & _).
      destruct (feed_sim_Some_l _ _ _ _ _ _ Hlut Hb) as (c' & Hc & _).
      repeat split; by eexists.
Qed.

Lemma X2_counts_witness :
  (∀ m cs, feed StateMachine_new [219; 109; 182] = Some (m, cs) →
     Forall (λ k, 0 ≤ k ≤ 3) cs
     ∧ total_count m ≤ 3 * Z.of_nat (length [219; 109; 182]))
  ∧ (∀ m cs, feed SlidingBitmask_new [219; 109; 182] = Some (m, cs) →
       Forall (λ k, 0 ≤ k ≤ 3) cs
       ∧ total_count m ≤ 3 * Z.of_nat (length [219; 109; 182]))
  ∧ (∃ lut, Lut_new = Some lut ∧
       (∀ m cs, feed lut [219; 109; 182] = Some (m, cs) →
          Forall (λ k, 0 ≤ k ≤ 3) cs
          ∧ total_count m ≤ 3 * Z.of_nat (length [219; 109; 182]))
       ∧ (3 * Z.of_nat (length [219; 109; 182]) ≤ INT_MAX →
          is_Some (feed StateMachine_new [219; 109; 182])
          ∧ is_Some (feed SlidingBitmask_new [219; 109; 182])
          ∧ is_Some (feed lut [219; 109; 182]))).
Proof.
  apply (X2_counts_between_0_and_3 [219; 109; 182]).
  repeat constructor; unfold is_uchar; lia.
Defined.

(** ** What a call leaves behind *)

(** X3.  After a call the position of a StateMachine is the number of
    trailing 1 bits of the sample just processed, at most 2, whatever the
    position before the call was. *)
Theorem X3_pos_after_call (m m' : StateMachine) (sample k : Z) :
  sm_pos_ok (pos m) → is_uchar sample →
  pattern_match m sample = Some (m', k) →
  pos m' = carry sample.
Proof.
  intros Hpos Hs. rewrite StateMachine_pattern_match_eq. intros Hcall.
  destruct (int_add (sm_total_count m) _); [|done].
  cbn [mbind option_bind] in Hcall. injection Hcall as <- _.
  cbn [pos].
  assert (∃ p, pos m = carry p) as [p ->].
  { destruct Hpos as [->|[->| ->]]; [by exists 0 | by exists 1 | by exists 3]. }
  by rewrite sm_sb_step.
Qed.

Lemma X3_pos_after_call_witness :
  pos {| sm_total_count := 9; pos := 1 |} = carry 77.
Proof.
  apply (X3_pos_after_call {| sm_total_count := 7; pos := 2 |}
           {| sm_total_count := 9; pos := 1 |} 77 2).
  - right. right. reflexivity.
  - unfold is_uchar. lia.
  - reflexivity.
Defined.

(** X4.  With a table of 1024 entries, the index Lut::pattern_match reads
    is inside the table for every carried byte and every sample; the call
    returns the entry read, stores the sample in [prev], leaves the table
    as it is, and is undefined only when adding the entry to the running
    total overflows. *)
Theorem X4_lut_read_in_bounds (m : Lut) (sample : Z) :
  length (count_lut m) = 1024%nat →
  ∃ (i : nat) (counter : Z),
    (i < 1024)%nat
    ∧ count_lut m !! i = Some counter
    ∧ pattern_match m sample
      = (total ← int_add (lut_total_count m) counter;
         Some ({| lut_total_count := total; lut_prev := sample;
                  count_lut := count_lut m |}, counter)).
Proof.
  intros Hlen.
  change (pattern_match m sample) with (Lut_pattern_match m sample).
  unfold Lut_pattern_match. rewrite lut_index.
  pose proof (land_1023_range (sb_combine (lut_prev m) sample)) as Hidx.
  set (idx := Z.land (sb_combine (lut_prev m) sample) 1023) in *.
  destruct (lookup_lt_is_Some_2 (count_lut m) (Z.to_nat idx)) as [v Hv];
    [lia|].
  exists (Z.to_nat idx), v. split; [lia|]. split; [done|].
  by rewrite (proj2 (array_get_Some _ _ v) (conj (proj1 Hidx) Hv)).
Qed.

Lemma X4_lut_read_witness :
  ∃ (i : nat) (counter : Z),
    (i < 1024)%nat
    ∧ replicate 1024 5 !! i = Some counter
    ∧ pattern_match {| lut_total_count := 4; lut_prev := 255;
                       count_lut := replicate 1024 5 |} 255
      = (total ← int_add 4 counter;
         Some ({| lut_total_count := total; lut_prev := 255;
                  count_lut := replicate 1024 5 |}, counter)).
Proof.
  apply (X4_lut_read_in_bounds
           {| lut_total_count := 4; lut_prev := 255;
              count_lut := replicate 1024 5 |} 255).
  apply length_replicate.
Defined.

(** ** The three matchers, call by call *)

Lemma same_result_snd {A B C} (R : A → B → Prop)
    (x : option (A * C)) (y : option (B * C)) :
  same_result R x y → snd <$> x = snd <$> y.
Proof.
  destruct x as [[a c]|], y as [[b d]|]; simpl; try done.
  by intros [-> _].
Qed.

(** X5.  Fed the same bytes, the three matchers return the same count
    from every single call (not only the same totals). *)
Theorem X5_same_count_every_call (samples : list Z) :
  Forall is_uchar samples →
  ∃ lut, Lut_new = Some lut
    ∧ snd <$> feed StateMachine_new samples
      = snd <$> feed SlidingBitmask_new samples
    ∧ snd <$> feed SlidingBitmask_new samples = snd <$> feed lut samples.
Proof.
  intros Hl. destruct Lut_new_ok as (table & Hnew & Htable).
  eexists. split; [exact Hnew|]. split.
  - apply (same_result_snd sm_sb_rel).
    apply (feed_sim sm_sb_rel sm_sb_rel_step); [done | apply sm_sb_rel_new].
  - apply (same_result_snd sb_lut_rel).
    apply (feed_sim sb_lut_rel sb_lut_rel_step);
      [done | by apply sb_lut_rel_new].
Qed.

Lemma X5_same_count_witness :
  ∃ lut, Lut_new = Some lut
    ∧ snd <$> feed StateMachine_new [219; 109; 182; 3; 0]
      = snd <$> feed SlidingBitmask_new [219; 109; 182; 3; 0]
    ∧ snd <$> feed SlidingBitmask_new [219; 109; 182; 3; 0]
      = snd <$> feed lut [219; 109; 182; 3; 0].
Proof.
  apply (X5_same_count_every_call [219; 109; 182; 3; 0]).
  repeat constructor; unfold is_uchar; lia.
Defined.

(** ** The totals count the occurrences of 1,1,0 in the bit stream *)

Lemma spec_transitions_app (bits1 bits2 : list bool) (state matches : Z) :
  spec_transitions (bits1 ++ bits2) state matches
  = ('(state', matches') ← spec_transitions bits1 state matches;
     spec_transitions bits2 state' matches').
Proof.
  revert state matches.
  induction bits1 as [|bit bits1 IH]; intros state matches; [done|].
  cbn [app spec_transitions].
  destruct (spec_transition state bit matches) as [[s1 m1]|]; [|done].
  cbn [mbind option_bind]. apply IH.
Qed.

(** Started from a larger number of matches, the automaton ends with that
    much more. *)
Lemma spec_transitions_shift (bits : list bool) (state matches k : Z) :
  spec_transitions bits state (matches + k)
  = (λ r, (r.1, r.2 + k)) <$> spec_transitions bits state matches.
Proof.
  revert state matches.
  induction bits as [|bit bits IH]; intros state matches; [done|].
  cbn [spec_transitions]. unfold spec_transition.
  destruct (decide (state = 0 ∨ state = 1)) as [_|_];
    [|destruct (decide (state = 2)) as [_|_]];
    cbn [mbind option_bind]; [apply IH | | done].
  destruct bit; [apply IH|].
  replace (matches + k + 1) with (matches + 1 + k) by lia. apply IH.
Qed.

Lemma spec_transition_0 (bit : bool) (matches : Z) :
  spec_transition 0 bit matches = Some (if bit then 1 else 0, matches).
Proof. unfold spec_transition. repeat case_decide; try lia. by destruct bit. Qed.

Lemma spec_transition_1 (bit : bool) (matches : Z) :
  spec_transition 1 bit matches = Some (if bit then 2 else 0, matches).
Proof. unfold spec_transition. repeat case_decide; try lia. by destruct bit. Qed.

Lemma spec_transition_2 (bit : bool) (matches : Z) :
  spec_transition 2 bit matches
  = Some (if bit then (2, matches) else (0, matches + 1)).
Proof. unfold spec_transition. by repeat case_decide; try lia. Qed.

(** In state k the automaton has just read k 1 bits: it records the
    occurrences of 1,1,0 in these bits followed by the bits it reads. *)
Lemma spec_transitions_count (bits : list bool) (state matches : Z) :
  sm_pos_ok state →
  ∃ state',
    spec_transitions bits state matches
    = Some (state',
            matches + count_110 (replicate (Z.to_nat state) true ++ bits)).
Proof.
  revert state matches.
  induction bits as [|bit bits IH]; intros state matches Hstate.
  - exists state. destruct Hstate as [->|[->| ->]]; simpl; f_equal; f_equal;
      lia.
  - cbn [spec_transitions].
    destruct Hstate as [->|[->| ->]], bit;
      rewrite ?spec_transition_0, ?spec_transition_1, ?spec_transition_2;
      cbn [mbind option_bind].
    + destruct (IH 1 matches) as [s' ->]; [by right; left|]. by exists s'.
    + destruct (IH 0 matches) as [s' ->]; [by left|]. by exists s'.
    + destruct (IH 2 matches) as [s' ->]; [by right; right|]. by exists s'.
    + destruct (IH 0 matches) as [s' ->]; [by left|]. by exists s'.
    + destruct (IH 2 matches) as [s' ->]; [by right; right|]. by exists s'.
    + destruct (IH 0 (matches + 1)) as [s' ->]; [by left|]. exists s'.
      f_equal. f_equal. simpl. lia.
Qed.

(** The driver loop of a StateMachine is one run of the automaton over
    the bits of all the bytes, the running total being its number of
    matches. *)
Lemma sm_feed_stream (samples : list Z) (m m' : StateMachine)
    (cs : list Z) :
  sm_pos_ok (pos m) → feed m samples = Some (m', cs) →
  spec_transitions (stream_bits samples) (pos m) (total_count m)
  = Some (pos m', total_count m').
Proof.
  revert m cs. induction samples as [|s l IH]; intros m cs Hpos Hfeed.
  - by injection Hfeed as <- <-.
  - cbn [feed] in Hfeed. rewrite StateMachine_pattern_match_eq in Hfeed.
    destruct (int_add (sm_total_count m) _) as [t|] eqn:Hadd; [|done].
    apply int_add_Some in Hadd as [-> _].
    cbn [mbind option_bind] in Hfeed.
    match type of Hfeed with context [feed ?m1 l] =>
      destruct (feed m1 l) as [[m2 cs2]|] eqn:Hrest; [|done]
    end.
    injection Hfeed as <- <-.
    apply IH in Hrest; [|by apply sm_loop_closed].
    unfold stream_bits. cbn [map concat]. fold (stream_bits l).
    rewrite spec_transitions_app.
    pose proof (sm_call_spec s (pos m) Hpos) as Hbyte.
    unfold spec_process_byte in Hbyte.
    pose proof (spec_transitions_shift (byte_bits s) (pos m) 0
                  (total_count m)) as Hshift.
    rewrite Hbyte in Hshift. cbn [fmap option_fmap option_map] in Hshift.
    change (0 + total_count m) with (total_count m) in Hshift.
    rewrite Hshift. cbn [mbind option_bind fst snd].
    cbn [pos total_count StateMachine_Method sm_total_count] in Hrest.
    cbn [total_count StateMachine_Method].
    by rewrite Z.add_comm.
Qed.

Lemma StateMachine_total_is_count (samples : list Z) (t : Z) :
  total_after StateMachine_new samples = Some t →
  t = count_110 (stream_bits samples).
Proof.
  unfold total_after. intros Htotal.
  destruct (feed StateMachine_new samples) as [[m cs]|] eqn:Hfeed; [|done].
  injection Htotal as <-.
  pose proof (sm_feed_stream _ _ _ _ sm_pos_ok_new Hfeed) as Hrun.
  destruct (spec_transitions_count (stream_bits samples) 0 0 sm_pos_ok_new)
    as [s' Hcount].
  change (pos StateMachine_new) with 0 in Hrun.
  change (total_count StateMachine_new) with 0 in Hrun.
  rewrite Hcount in Hrun. by injection Hrun as _ <-.
Qed.

(** X6.  The running total of each of the three matchers, fed a sequence
    of bytes from construction, is the number of positions at which
    1,1,0 starts in the bit stream of these bytes (each byte bit 7
    first); occurrences that span two bytes are counted like the others. *)
Theorem X6_total_is_number_of_occurrences (samples : list Z) :
  Forall is_uchar samples →
  (∀ t, total_after StateMachine_new samples = Some t →
     t = count_110 (stream_bits samples))
  ∧ (∀ t, total_after SlidingBitmask_new samples = Some t →
       t = count_110 (stream_bits samples))
  ∧ (∃ lut, Lut_new = Some lut ∧
       ∀ t, total_after lut samples = Some t →
         t = count_110 (stream_bits samples)).
Proof.
  intros Hl. destruct Lut_new_ok as (table & Hnew & Htable).
  pose proof (total_after_sim sm_sb_rel sm_sb_rel_total sm_sb_rel_step
                samples _ _ Hl sm_sb_rel_new) as Hsm.
  pose proof (total_after_sim sb_lut_rel sb_lut_rel_total sb_lut_rel_step
                samples _ _ Hl (sb_lut_rel_new table Htable)) as Hlut.
  split; [apply StateMachine_total_is_count|]. split.
  - intros t Ht. apply StateMachine_total_is_count. by rewrite Hsm.
  - eexists. split; [exact Hnew|]. intros t Ht.
    apply StateMachine_total_is_count. by rewrite Hsm, Hlut.
Qed.

Lemma X6_total_is_number_witness :
  (∀ t, total_after StateMachine_new [1; 128; 219] = Some t →
     t = count_110 (stream_bits [1; 128; 219]))
  ∧ (∀ t, total_after SlidingBitmask_new [1; 128; 219] = Some t →
       t = count_110 (stream_bits [1; 128; 219]))
  ∧ (∃ lut, Lut_new = Some lut ∧
       ∀ t, total_after lut [1; 128; 219] = Some t →
         t = count_110 (stream_bits [1; 128; 219])).
Proof.
  apply (X6_total_is_number_of_occurrences [1; 128; 219]).
  repeat constructor; unfold is_uchar; lia.
Defined.

Example count_110_example :
  count_110 (stream_bits [219; 109; 182]) = 8
  ∧ total_after StateMachine_new [219; 109; 182] = Some 8.
Proof. split; reflexivity. Qed.

(** ** main *)

#[local] Arguments main_samples_loop : simpl never.
#[local] Arguments main_batch_loop : simpl never.
#[local] Arguments main_stream : simpl never.

(** A virtual call on an element of [methods] is the call of its class. *)
Lemma feed_IsStateMachine (l : list Z) (m : StateMachine) :
  feed (IsStateMachine m) l
  = (λ r, (IsStateMachine r.1, r.2)) <$> feed m l.
Proof.
  revert m. induction l as [|s l IH]; intros m; [done|].
  cbn [feed].
  change (pattern_match (IsStateMachine m) s) with
    ('(m', counter) ← pattern_match m s; Some (IsStateMachine m', counter)).
  destruct (pattern_match m s) as [[m1 c]|]; [|done].
  cbn [mbind option_bind]. rewrite IH.
  by destruct (feed m1 l) as [[m2 cs]|].
Qed.

Lemma feed_IsSlidingBitmask (l : list Z) (m : SlidingBitmask) :
  feed (IsSlidingBitmask m) l
  = (λ r, (IsSlidingBitmask r.1, r.2)) <$> feed m l.
Proof.
  revert m. induction l as [|s l IH]; intros m; [done|].
  cbn [feed].
  change (pattern_match (IsSlidingBitmask m) s) with
    ('(m', counter) ← pattern_match m s;
     Some (IsSlidingBitmask m', counter)).
  destruct (pattern_match m s) as [[m1 c]|]; [|done].
  cbn [mbind option_bind]. rewrite IH.
  by destruct (feed m1 l) as [[m2 cs]|].
Qed.

Lemma feed_IsLut (l : list Z) (m : Lut) :
  feed (IsLut m) l = (λ r, (IsLut r.1, r.2)) <$> feed m l.
Proof.
  revert m. induction l as [|s l IH]; intros m; [done|].
  cbn [feed].
  change (pattern_match (IsLut m) s) with
    ('(m', counter) ← pattern_match m s; Some (IsLut m', counter)).
  destruct (pattern_match m s) as [[m1 c]|]; [|done].
  cbn [mbind option_bind]. rewrite IH.
  by destruct (feed m1 l) as [[m2 cs]|].
Qed.

Lemma main_samples_loop_S (n : nat) (i : Z) (samples : list Z)
    (method : AnyMethod) :
  main_samples_loop (S n) i samples method
  = (sample ← array_get samples i;
     '(method', _) ← pattern_match method sample;
     main_samples_loop n (i + 1) samples method').
Proof. reflexivity. Qed.

(** The loop over the indices of the array is the driver loop over its
    content. *)
Lemma main_samples_loop_from (suffix prefix : list Z) (method : AnyMethod) :
  main_samples_loop (length suffix) (Z.of_nat (length prefix))
    (prefix ++ suffix) method
  = fst <$> feed method suffix.
Proof.
  revert prefix method.
  induction suffix as [|s suffix IH]; intros prefix method; [done|].
  cbn [length]. rewrite main_samples_loop_S.
  rewrite (proj2 (array_get_Some (prefix ++ s :: suffix)
                    (Z.of_nat (length prefix)) s));
    [|split; [lia | rewrite Nat2Z.id; by apply list_lookup_middle]].
  cbn [mbind option_bind feed].
  destruct (pattern_match method s) as [[m1 c]|]; [|done].
  cbn [mbind option_bind].
  specialize (IH (prefix ++ [s]) m1).
  rewrite length_app, <- app_assoc in IH. cbn [length app] in IH.
  replace (Z.of_nat (length prefix + 1)) with (Z.of_nat (length prefix) + 1)
    in IH by lia.
  rewrite IH. by destruct (feed m1 suffix) as [[m2 cs]|].
Qed.

Lemma main_samples_loop_feed (samples : list Z) (method : AnyMethod) :
  Z.of_nat (length samples) = BATCH_SIZE →
  main_samples_loop (Z.to_nat BATCH_SIZE) 0 samples method
  = fst <$> feed method samples.
Proof.
  intros <-. rewrite Nat2Z.id.
  apply (main_samples_loop_from samples []).
Qed.

Lemma feed_fst_app {M} `{Method M} (l1 l2 : list Z) (m : M) :
  fst <$> feed m (l1 ++ l2)
  = (fst <$> feed m l1) ≫= (λ m1, fst <$> feed m1 l2).
Proof.
  rewrite feed_app. destruct (feed m l1) as [[m1 cs1]|]; [|done].
  cbn [mbind option_bind fmap option_fmap option_map fst].
  by destruct (feed m1 l2) as [[m2 cs2]|].
Qed.

Lemma mapM_option_bind {X : Type} (f g : X → option X) (l : list X) :
  mapM f l ≫= mapM g = mapM (λ x, f x ≫= g) l.
Proof.
  induction l as [|x l IH]; [done|]. cbn [mapM].
  destruct (f x) as [y|]; [|done]. cbn [mbind option_bind].
  rewrite <- IH. destruct (mapM f l) as [k|]; cbn [mbind option_bind mret
    option_ret mapM].
  - done.
  - by destruct (g y).
Qed.

Lemma mapM_option_id {X : Type} (l : list X) : mapM Some l = Some l.
Proof. induction l as [|x l IH]; [done|]. cbn [mapM]. by rewrite IH. Qed.

Lemma main_stream_S (n : nat) (batch : Z) (read : Z → list Z) :
  main_stream (S n) batch read
  = read batch ++ main_stream n (batch + 1) read.
Proof. reflexivity. Qed.

Lemma main_batch_loop_S (n : nat) (batch : Z) (read : Z → list Z)
    (methods : list AnyMethod) :
  main_batch_loop (S n) batch read methods
  = (methods' ← main_methods_loop (read batch) methods;
     main_batch_loop n (batch + 1) read methods').
Proof. reflexivity. Qed.

Lemma main_batch_loop_stream (n : nat) (batch : Z) (read : Z → list Z)
    (methods : list AnyMethod) :
  (∀ b, batch ≤ b < batch + Z.of_nat n →
     Z.of_nat (length (read b)) = BATCH_SIZE) →
  main_batch_loop n batch read methods
  = mapM (λ method, fst <$> feed method (main_stream n batch read)) methods.
Proof.
  revert batch methods.
  induction n as [|n IH]; intros batch methods Hread.
  - change (main_batch_loop 0 batch read methods) with (Some methods).
    change (main_stream 0 batch read) with (@nil Z).
    symmetry. apply mapM_option_id.
  - rewrite main_batch_loop_S, main_stream_S. unfold main_methods_loop.
    rewrite (mapM_ext _ (λ method, fst <$> feed method (read batch)))
      by (intros method; apply main_samples_loop_feed, Hread; lia).
    rewrite (mapM_ext
      (λ method, fst <$> feed method
                   (read batch ++ main_stream n (batch + 1) read))
      (λ method, (fst <$> feed method (read batch))
                 ≫= (λ m1, fst <$> feed m1
                              (main_stream n (batch + 1) read))))
      by (intros method; apply feed_fst_app).
    rewrite <- mapM_option_bind.
    destruct (mapM (λ method, fst <$> feed method (read batch)) methods)
      as [methods'|]; [|done].
    cbn [mbind option_bind]. apply IH. intros b Hb. apply Hread. lia.
Qed.

(** X7.  Batching is transparent: when every batch fills the array of
    BATCH_SIZE samples, the loop of [main] over n batches leaves every
    method as one driver loop over the bytes of all the batches in order
    leaves it, and is undefined exactly when that loop is for one of the
    methods. *)
Theorem X7_batches_are_one_stream (n : nat) (batch : Z) (read : Z → list Z)
    (methods : list AnyMethod) :
  (∀ b, batch ≤ b < batch + Z.of_nat n →
     Z.of_nat (length (read b)) = BATCH_SIZE) →
  main_batch_loop n batch read methods
  = mapM (λ method, fst <$> feed method (main_stream n batch read)) methods.
Proof. apply main_batch_loop_stream. Qed.

Lemma X7_batches_witness :
  main_batch_loop 2 5 (λ b, replicate 1000 (200 + b))
    [IsSlidingBitmask SlidingBitmask_new; IsStateMachine StateMachine_new]
  = mapM (λ method,
      fst <$> feed method (main_stream 2 5 (λ b, replicate 1000 (200 + b))))
      [IsSlidingBitmask SlidingBitmask_new; IsStateMachine StateMachine_new].
Proof.
  apply (X7_batches_are_one_stream 2 5 (λ b, replicate 1000 (200 + b))).
  intros b Hb. rewrite length_replicate. reflexivity.
Defined.

Lemma main_stream_length (n : nat) (batch : Z) (read : Z → list Z) :
  (∀ b, batch ≤ b < batch + Z.of_nat n →
     Z.of_nat (length (read b)) = BATCH_SIZE) →
  Z.of_nat (length (main_stream n batch read)) = Z.of_nat n * BATCH_SIZE.
Proof.
  revert batch. induction n as [|n IH]; intros batch Hread; [done|].
  rewrite main_stream_S, length_app, Nat2Z.inj_add, Hread by lia.
  rewrite IH by (intros b Hb; apply Hread; lia). lia.
Qed.

Lemma main_stream_uchar (n : nat) (batch : Z) (read : Z → list Z) :
  (∀ b, batch ≤ b < batch + Z.of_nat n → Forall is_uchar (read b)) →
  Forall is_uchar (main_stream n batch read).
Proof.
  revert batch. induction n as [|n IH]; intros batch Hread.
  - apply Forall_nil_2.
  - rewrite main_stream_S. apply Forall_app. split; [apply Hread; lia|].
    apply IH. intros b Hb. apply Hread. lia.
Qed.

(** X8.  Whatever bytes the 10000 batches of 1000 samples contain, [main]
    runs to its end without signed overflow or access outside an array,
    and prints the same total for StateMachine, SlidingBitmask and LUT,
    in this order: the number of occurrences of 1,1,0 in the bit stream
    of all the bytes read, at most 3 per byte. *)
Theorem X8_main_prints_equal_totals (read : Z → list Z) :
  (∀ b, 0 ≤ b < N_BYTES / BATCH_SIZE →
     Z.of_nat (length (read b)) = BATCH_SIZE ∧ Forall is_uchar (read b)) →
  ∃ t,
    main read
    = Some [("StateMachine"%string, t); ("SlidingBitmask"%string, t);
            ("LUT"%string, t)]
    ∧ t = count_110
            (stream_bits
               (main_stream (Z.to_nat (N_BYTES / BATCH_SIZE)) 0 read))
    ∧ 0 ≤ t ≤ 3 * N_BYTES.
Proof.
  intros Hread. unfold main, main_methods.
  destruct Lut_new_ok as (table & Hnew & Htable). rewrite Hnew.
  cbn [mbind option_bind].
  remember (Z.to_nat (N_BYTES / BATCH_SIZE)) as n eqn:Hn.
  assert (Z.of_nat n = N_BYTES / BATCH_SIZE) as Hn'
    by (subst n; by apply Z2Nat.id).
  clear Hn.
  rewrite main_batch_loop_stream by (intros b Hb; apply Hread; lia).
  set (stream := main_stream n 0 read).
  assert (Z.of_nat (length stream) = N_BYTES) as Hlen.
  { unfold stream. rewrite main_stream_length, Hn'; [done|].
    intros b Hb. apply Hread. lia. }
  assert (Forall is_uchar stream) as Hstream.
  { apply main_stream_uchar. intros b Hb. apply Hread. lia. }
  destruct (SlidingBitmask_feed_defined_3 stream SlidingBitmask_new)
    as [[b' cs] Hb]; [done | by rewrite Hlen |].
  pose proof (feed_sim sm_sb_rel sm_sb_rel_step stream _ _ Hstream
                sm_sb_rel_new) as Hsm.
  pose proof (feed_sim sb_lut_rel sb_lut_rel_step stream _ _ Hstream
                (sb_lut_rel_new table Htable)) as Hlut.
  destruct (feed_sim_Some _ _ _ _ _ _ Hsm Hb) as (a' & Ha & [Hta _]).
  destruct (feed_sim_Some_l _ _ _ _ _ _ Hlut Hb) as (c' & Hc & (Htc & _)).
  exists (sm_total_count a'). split; [|split].
  - cbn [mapM]. rewrite feed_IsStateMachine, feed_IsSlidingBitmask,
      feed_IsLut, Ha, Hb, Hc.
    cbn [fmap option_fmap option_map mbind option_bind mret option_ret
         fst snd map getName total_count AnyMethod_Method
         AnyMethod_total_count StateMachine_Method SlidingBitmask_Method
         Lut_Method].
    by rewrite <- Htc, <- Hta.
  - apply StateMachine_total_is_count. unfold total_after.
    by rewrite Ha.
  - pose proof (SlidingBitmask_feed_le_3 _ _ _ _ Hb) as [_ Hle].
    pose proof (feed_sound (λ _, True) SlidingBitmask_step _ _ _ _ I Hb)
      as (_ & _ & _ & Hge).
    cbn [total_count SlidingBitmask_Method SlidingBitmask_new
         sb_total_count] in Hle, Hge.
    rewrite Hta. lia.
Qed.

Lemma X8_main_prints_witness :
  ∃ t,
    main (λ _, replicate 1000 219)
    = Some [("StateMachine"%string, t); ("SlidingBitmask"%string, t);
            ("LUT"%string, t)]
    ∧ t = count_110
            (stream_bits
               (main_stream (Z.to_nat (N_BYTES / BATCH_SIZE)) 0
                  (λ _, replicate 1000 219)))
    ∧ 0 ≤ t ≤ 3 * N_BYTES.
Proof.
  apply (X8_main_prints_equal_totals (λ _, replicate 1000 219)).
  intros b Hb. split.
  - rewrite length_replicate. reflexivity.
  - apply Forall_replicate. unfold is_uchar. lia.
Defined.

(** ** The default branch *)

Lemma sm_transition_default (p counter bit : Z) :
  ¬ sm_pos_ok p → sm_transition p counter bit = (p, counter).
Proof.
  intros Hp. unfold sm_transition.
  destruct (sm_switch p) eqn:Hcase; [| |done];
    destruct Hp; apply sm_switch_ok; by rewrite Hcase.
Qed.

Lemma sm_loop_default (n : nat) (sample p counter : Z) :
  ¬ sm_pos_ok p → sm_loop n sample p counter = (p, counter).
Proof.
  intros Hp. induction n as [|n IH]; [done|].
  by rewrite sm_loop_S, sm_transition_default.
Qed.

(** X9.  A StateMachine whose [pos] were outside {0, 1, 2} would take the
    default branch at every bit: each call returns 0 and leaves [pos] and
    the running total as they are, so such an instance never counts a
    match again. *)
Theorem X9_default_branch_is_inert (m : StateMachine) (samples : list Z) :
  ¬ sm_pos_ok (pos m) → INT_MIN ≤ sm_total_count m ≤ INT_MAX →
  feed m samples = Some (m, replicate (length samples) 0).
Proof.
  intros Hpos Htotal. induction samples as [|s l IH]; [done|].
  cbn [feed length replicate].
  rewrite StateMachine_pattern_match_eq, sm_loop_default by done.
  cbn [fst snd]. rewrite int_add_in_range by lia.
  cbn [mbind option_bind]. rewrite Z.add_0_r.
  replace {| sm_total_count := sm_total_count m; pos := pos m |} with m
    by (by destruct m).
  by rewrite IH.
Qed.

Lemma X9_default_branch_witness :
  feed {| sm_total_count := 6; pos := 3 |} [219; 109; 192]
  = Some ({| sm_total_count := 6; pos := 3 |},
          replicate (length [219; 109; 192]) 0).
Proof.
  apply (X9_default_branch_is_inert {| sm_total_count := 6; pos := 3 |}
           [219; 109; 192]).
  - unfold sm_pos_ok. cbn [pos]. lia.
  - cbn [sm_total_count]. unfold INT_MIN, INT_MAX. lia.
Defined.
